(** * nipype.interfaces.dtitk.registration: output-name prediction

    A shallow embedding of the DTI-TK registration wrappers
    (nipype/interfaces/dtitk/registration.py).  Each wrapper class declares
    an input specification (a table of traits) and a method
    [_list_outputs] that predicts the names of the files the external
    program will write.  The embedding keeps:

    - Python byte strings as [string], with the [str] methods the module
      calls ([replace], [startswith], ...) written out;
    - the [inputs] object as a finite map from attribute names to the
      values that have been assigned (an absent declared trait reads as
      [Undefined]);
    - exceptions and the mutation of [self.inputs] through a small
      state-and-error monad;
    - the working directory of the process, which [os.path.abspath]
      reads, as an explicit argument [cwd]. *)

From Stdlib Require Import Ascii String List Bool ZArith Lia.
From stdpp Require Import base gmap strings.

#[local] Arguments String.append : simpl nomatch.
#[local] Open Scope Z_scope.

(** ** Python [str] *)

Module str.

(** [s.startswith(pre)] *)
Fixpoint startswith (s pre : string) {struct pre} : bool :=
  match pre with
  | EmptyString => true
  | String a pre' =>
      match s with
      | EmptyString => false
      | String b s' => Ascii.eqb a b && startswith s' pre'
      end
  end.

(** [sub in s] *)
Fixpoint contains (s sub : string) : bool :=
  startswith s sub ||
  match s with
  | EmptyString => false
  | String _ s' => contains s' sub
  end.

(** [s[n:]] for [0 <= n] *)
Fixpoint drop (n : nat) (s : string) : string :=
  match n, s with
  | O, _ => s
  | S _, EmptyString => EmptyString
  | S n', String _ s' => drop n' s'
  end.

(** [s[:n]] for [0 <= n] *)
Fixpoint take (n : nat) (s : string) : string :=
  match n, s with
  | O, _ => EmptyString
  | S _, EmptyString => EmptyString
  | S n', String c s' => String c (take n' s')
  end.

(** [s.endswith(suf)]: some tail of [s] is [suf]. *)
Fixpoint endswith (s suf : string) : bool :=
  String.eqb s suf ||
  match s with
  | EmptyString => false
  | String _ s' => endswith s' suf
  end.

(** [s.replace(old, new)] with a non-empty [old]: one pass from the left;
    at a position where [old] matches, [new] is emitted and the scan
    resumes behind the match ([skip] counts the characters of the match
    still to be passed over), so the occurrences replaced are the
    non-overlapping ones found left to right. *)
Fixpoint replace_scan (old new : string) (skip : nat) (s : string) : string :=
  match s with
  | EmptyString => EmptyString
  | String c s' =>
      match skip with
      | S k => replace_scan old new k s'
      | O =>
          if startswith (String c s') old
          then new +:+ replace_scan old new (String.length old - 1) s'
          else String c (replace_scan old new 0 s')
      end
  end.

(** [s.replace("", new)]: [new] is inserted before every character and
    at the end. *)
Fixpoint replace_empty (new : string) (s : string) : string :=
  new +:+
  match s with
  | EmptyString => EmptyString
  | String c s' => String c (replace_empty new s')
  end.

Definition replace (s old new : string) : string :=
  match old with
  | EmptyString => replace_empty new s
  | String _ _ => replace_scan old new 0 s
  end.


(** [s.rfind(c)] for a one-character [c]: the highest index at which [c]
    occurs, [-1] when it does not occur. *)
Fixpoint rfind (s : string) (c : ascii) : Z :=
  match s with
  | EmptyString => -1
  | String a s' =>
      let r := rfind s' c in
      if 0 <=? r then r + 1 else if Ascii.eqb a c then 0 else -1
  end.

(** [s.split(sep)] for a one-character [sep]: never the empty list, and
    adjacent separators give empty pieces. *)
Fixpoint split (s : string) (sep : ascii) : list string :=
  match s with
  | EmptyString => [EmptyString]
  | String c s' =>
      if Ascii.eqb c sep then EmptyString :: split s' sep
      else match split s' sep with
           | piece :: pieces => String c piece :: pieces
           | [] => [String c EmptyString]
           end
  end.

(** [sep.join(pieces)] *)
Fixpoint join (sep : string) (pieces : list string) : string :=
  match pieces with
  | [] => EmptyString
  | [piece] => piece
  | piece :: pieces' => piece +:+ sep +:+ join sep pieces'
  end.

(** [s.rstrip(c)] for a one-character [c] *)
Fixpoint rstrip (s : string) (c : ascii) : string :=
  match s with
  | EmptyString => EmptyString
  | String a s' =>
      match rstrip s' c with
      | EmptyString => if Ascii.eqb a c then EmptyString else String a EmptyString
      | r => String a r
      end
  end.

(** [c * n] for a one-character [c] *)
Fixpoint repeat (c : ascii) (n : nat) : string :=
  match n with
  | O => EmptyString
  | S n' => String c (repeat c n')
  end.

Definition lower_ascii (c : ascii) : ascii :=
  let n := nat_of_ascii c in
  if ((65 <=? n) && (n <=? 90))%nat then ascii_of_nat (n + 32) else c.

(** [s.lower()] on a byte string *)
Fixpoint lower (s : string) : string :=
  match s with
  | EmptyString => EmptyString
  | String c s' => String (lower_ascii c) (lower s')
  end.

(** every character of [s] satisfies [f] *)
Fixpoint all (f : ascii -> bool) (s : string) : bool :=
  match s with
  | EmptyString => true
  | String c s' => f c && all f s'
  end.

End str.

(** ** [os.path] on POSIX

    The functions of Python's [posixpath] that the module reaches, directly
    or through [nipype.utils.filemanip].  [os.getcwd()] is the argument
    [cwd]. *)

Module posixpath.

Definition sep : ascii := "/".
Definition extsep : ascii := ".".

Definition isabs (s : string) : bool := str.startswith s "/".

(** [join(a, b)] *)
Definition join (a b : string) : string :=
  if str.startswith b "/" then b
  else if String.eqb a "" || str.endswith a "/" then a +:+ b
  else a +:+ "/" +:+ b.

(** [basename(p)]: [p[p.rfind('/') + 1:]] *)
Definition basename (p : string) : string :=
  let i := str.rfind p sep + 1 in
  str.drop (Z.to_nat i) p.

(** [dirname(p)] *)
Definition dirname (p : string) : string :=
  let i := str.rfind p sep + 1 in
  let head := str.take (Z.to_nat i) p in
  if negb (String.eqb head "") &&
     negb (String.eqb head (str.repeat sep (String.length head)))
  then str.rstrip head sep
  else head.

(** [splitext(p)]: the extension starts at the last dot of the last path
    component, unless that component has only dots before it. *)
Definition splitext (p : string) : string * string :=
  let sepIndex := str.rfind p sep in
  let dotIndex := str.rfind p extsep in
  if (sepIndex <? dotIndex) &&
     negb (str.all (fun c => Ascii.eqb c extsep)
             (str.take (Z.to_nat (dotIndex - (sepIndex + 1)))
                (str.drop (Z.to_nat (sepIndex + 1)) p)))
  then (str.take (Z.to_nat dotIndex) p, str.drop (Z.to_nat dotIndex) p)
  else (p, "").

(** One round of the loop of [normpath] over the components. *)
Definition normpath_step (initial_slashes : nat) (new_comps : list string)
    (comp : string) : list string :=
  if String.eqb comp "" || String.eqb comp "." then new_comps
  else if negb (String.eqb comp "..")
          || ((initial_slashes =? 0)%nat && bool_decide (new_comps = []))
          || (negb (bool_decide (new_comps = []))
              && bool_decide (last new_comps = Some ".."))
  then new_comps ++ [comp]
  else removelast new_comps.

(** [normpath(path)] *)
Definition normpath (path : string) : string :=
  if String.eqb path "" then "."
  else
    let initial_slashes : nat :=
      if str.startswith path "/" then
        if str.startswith path "//" && negb (str.startswith path "///")
        then 2%nat else 1%nat
      else 0%nat in
    let comps := str.split path sep in
    let comps := fold_left (normpath_step initial_slashes) comps [] in
    let path := str.join "/" comps in
    let path := str.repeat sep initial_slashes +:+ path in
    if String.eqb path "" then "." else path.

(** [abspath(path)] *)
Definition abspath (cwd : string) (path : string) : string :=
  normpath (if isabs path then path else join cwd path).

End posixpath.

(** ** [nipype.utils.filemanip] *)

Module filemanip.

(** Modelled from the spec: the extensions of two parts that
    [split_filename] of [nipype.utils.filemanip] (imported by the module,
    its text not part of it) takes as one file extension. *)
Definition special_extensions : list string := [".nii.gz"; ".tar.gz"].

(** Modelled from the spec: the first special extension that [fname] ends
    with, compared without regard to case, and what stands before it; the
    file name must be longer than the extension. *)
Fixpoint split_special (fname : string) (exts : list string)
    : option (string * string) :=
  match exts with
  | [] => None
  | special_ext :: exts' =>
      let ext_len := String.length special_ext in
      let cut := (String.length fname - ext_len)%nat in
      if (ext_len <? String.length fname)%nat &&
         String.eqb (str.lower (str.drop cut fname)) (str.lower special_ext)
      then Some (str.take cut fname, str.drop cut fname)
      else split_special fname exts'
  end.

(** Modelled from the spec: [split_filename] of [nipype.utils.filemanip]
    (imported by the module, its text not part of it).  It splits a path
    into directory, base name without extension, and file extension: a
    special extension when the base name ends with one, else the extension
    [os.path.splitext] finds. *)
Definition split_filename (fname : string) : string * string * string :=
  let pth := posixpath.dirname fname in
  let fname := posixpath.basename fname in
  match split_special fname special_extensions with
  | Some (fname, ext) => (pth, fname, ext)
  | None =>
      let '(fname, ext) := posixpath.splitext fname in (pth, fname, ext)
  end.

(** Modelled from the spec: [fname_presuffix] of [nipype.utils.filemanip]
    (imported by the module, its text not part of it).  It puts
    [prefix] before and [suffix] after the base name of [fname], before the
    file extension, and places the result in the directory [newpath]
    (made absolute) when one is given, else in the directory of
    [fname]. *)
Definition fname_presuffix (cwd : string) (fname prefix suffix : string)
    (newpath : option string) : string :=
  let '(pth, fname, ext) := split_filename fname in
  let pth :=
    match newpath with
    | Some d => if String.eqb d "" then pth else posixpath.abspath cwd d
    | None => pth
    end in
  posixpath.join pth (prefix +:+ fname +:+ suffix +:+ ext).

End filemanip.

(** ** Traits, input objects and the method monad *)

Inductive exn : Type :=
| AttributeError
| TraitError.

(** A value read from a trait of type [Str], [File] or [Enum]: a string,
    or [Undefined] while nothing has been assigned. *)
Inductive pyval : Type :=
| Undefined
| PyStr (s : string).

#[global] Instance pyval_eq_dec : EqDecision pyval.
Proof. solve_decision. Defined.

Definition isdefined (v : pyval) : bool :=
  match v with
  | Undefined => false
  | PyStr _ => true
  end.

Inductive trait_type : Type :=
| Str
| File
| Enum (values : list string).

(** One trait declaration with the metadata the module gives. *)
Record trait : Type := mk_trait {
  ttype : trait_type;
  desc : option string;
  exists_ : bool;
  mandatory : bool;
  position : option Z;
  argstr : option string;
  name_source : option string;
  name_template : option string
}.

(** A specification class: its traits in declaration order. *)
Abbreviation spec := (list (string * trait)).

Fixpoint trait_of (sp : spec) (name : string) : option trait :=
  match sp with
  | [] => None
  | (n, t) :: sp' => if String.eqb n name then Some t else trait_of sp' name
  end.

(** The attributes of an [inputs] object that hold a string.  A declared
    trait that is absent here is [Undefined]. *)
Abbreviation inputs := (gmap string string).

(** The returned [outputs] dictionary. *)
Abbreviation outputs := (gmap string pyval).

(** A method body: it reads and may assign [self.inputs], and returns a
    value or raises. *)
Definition M (A : Type) : Type := inputs -> (exn + A) * inputs.

#[global] Instance M_ret : MRet M := fun A a i => (inr a, i).

#[global] Instance M_bind : MBind M := fun A B k m i =>
  match m i with
  | (inl e, i') => (inl e, i')
  | (inr a, i') => k a i'
  end.

Definition raise {A : Type} (e : exn) : M A := fun i => (inl e, i).

(** [self.inputs.<name>]: the assigned value; [Undefined] for a declared
    trait without one; [AttributeError] for a name that is neither. *)
Definition getattr (sp : spec) (name : string) : M pyval :=
  fun i =>
    match i !! name with
    | Some s => (inr (PyStr s), i)
    | None =>
        match trait_of sp name with
        | Some _ => (inr Undefined, i)
        | None => (inl AttributeError, i)
        end
    end.

(** What a trait type accepts when a string is assigned.  ([File] traits
    occur in the output specifications only, which are read as plain
    dictionaries; a check against the file system is not part of the
    model.) *)
Definition validate (ty : trait_type) (v : string) : bool :=
  match ty with
  | Str => true
  | File => true
  | Enum values => bool_decide (v ∈ values)
  end.

(** [self.inputs.<name> = v] for a string [v]: a declared trait validates
    the value and raises [TraitError], leaving the object as it was, when
    it does not accept it; a name the specification does not declare is
    refused with [TraitError] as well. *)
Definition setattr (sp : spec) (name : string) (v : string) : M unit :=
  fun i =>
    match trait_of sp name with
    | Some t =>
        if validate (ttype t) v then (inr tt, <[name := v]> i)
        else (inl TraitError, i)
    | None => (inl TraitError, i)
    end.

(** [v.replace(old, new)]: [Undefined] has no such method. *)
Definition py_replace (v : pyval) (old new : string) : M string :=
  match v with
  | PyStr s => mret (str.replace s old new)
  | Undefined => raise AttributeError
  end.

(** [os.path.abspath(v)]: [Undefined] has no [startswith]. *)
Definition py_abspath (cwd : string) (v : pyval) : M string :=
  match v with
  | PyStr s => mret (posixpath.abspath cwd s)
  | Undefined => raise AttributeError
  end.

(** [fname_presuffix(v, suffix=suffix, newpath=newpath)] *)
Definition py_fname_presuffix (cwd : string) (v : pyval) (suffix : string)
    (newpath : string) : M string :=
  match v with
  | PyStr s => mret (filemanip.fname_presuffix cwd s "" suffix (Some newpath))
  | Undefined => raise AttributeError
  end.

(** [output_spec().get()]: every output trait, still [Undefined]. *)
Definition get_traits (sp : spec) : outputs :=
  list_to_map (map (fun nt => (fst nt, Undefined)) sp).

(** [name_template % base] for a template with one [%s]. *)
Fixpoint format (template base : string) : string :=
  match template with
  | EmptyString => EmptyString
  | String "%" (String "s" rest) => base +:+ rest
  | String c rest => String c (format rest base)
  end.

(** ** The wrapper classes

    Each specification is the table of the traits the module writes for
    the class, in the order of the text.  The traits a class inherits from
    [CommandLineInputSpec] are not in the text of the module and not in
    the tables; none of the bodies below reads one. *)

Definition similarity_metrics : list string := ["EDS"; "GDS"; "DDS"; "NMI"].

Definition RigidInputSpec : spec :=
  [ ("fixed_file",
     mk_trait Str (Some "fixed diffusion tensor image") true true
       (Some 0) (Some "%s") None None);
    ("moving_file",
     mk_trait Str (Some "diffusion tensor image path") true true
       (Some 1) (Some "%s") None None);
    ("similarity_metric",
     mk_trait (Enum similarity_metrics) (Some "similarity metric") true true
       (Some 2) (Some "%s") None None) ].

Definition RigidOutputSpec : spec :=
  [ ("out_file", mk_trait File None true false None None None None);
    ("out_file_xfm", mk_trait File None true false None None None None) ].

Module RigidTask.

Definition input_spec : spec := RigidInputSpec.
Definition output_spec : spec := RigidOutputSpec.
Definition _cmd : string := "dti_rigid_sn".

Definition _list_outputs : M outputs :=
  let outputs := get_traits output_spec in
  v ← getattr input_spec "in_file";
  xfm ← py_replace v ".nii.gz" ".aff";
  let outputs := <["out_file_xfm" := PyStr xfm]> outputs in
  v ← getattr input_spec "in_file";
  out ← py_replace v ".nii.gz" "_aff.nii.gz";
  let outputs := <["out_file" := PyStr out]> outputs in
  mret outputs.

End RigidTask.

Definition AffineInputSpec : spec :=
  [ ("in_fixed_tensor",
     mk_trait Str (Some "fixed diffusion tensor image") true false
       (Some 0) (Some "%s") None None);
    ("in_moving_txt",
     mk_trait Str (Some "moving list of diffusion tensor image paths") true
       false (Some 1) (Some "%s") None None);
    ("in_similarity_metric",
     mk_trait (Enum similarity_metrics) (Some "similarity metric") true false
       (Some 3) (Some "%s") None None);
    ("in_usetrans_flag",
     mk_trait (Enum ["--useTrans"; ""])
       (Some "initialize using rigid transform??") true false
       (Some 4) (Some "%s") None None) ].

Definition AffineOutputSpec : spec :=
  [ ("out_file", mk_trait File None true false None None None None);
    ("out_file_xfm", mk_trait File None true false None None None None) ].

Module AffineTask.

Definition input_spec : spec := AffineInputSpec.
Definition output_spec : spec := AffineOutputSpec.
Definition _cmd : string := "dti_affine_sn".

Definition _list_outputs : M outputs :=
  let outputs := get_traits output_spec in
  v ← getattr input_spec "in_fixed_tensor";
  xfm ← py_replace v ".nii.gz" ".aff";
  let outputs := <["out_file_xfm" := PyStr xfm]> outputs in
  v ← getattr input_spec "in_fixed_tensor";
  out ← py_replace v ".nii.gz" "_aff.nii.gz";
  let outputs := <["out_file" := PyStr out]> outputs in
  mret outputs.

End AffineTask.

Definition DiffeoInputSpec : spec :=
  [ ("in_fixed_tensor",
     mk_trait Str (Some "fixed diffusion tensor image") true false
       (Some 0) (Some "%s") None None);
    ("in_moving_txt",
     mk_trait Str (Some "moving list of diffusion tensor image paths") true
       false (Some 1) (Some "%s") None None);
    ("in_mask",
     mk_trait Str (Some "mask") true false (Some 2) (Some "%s") None None);
    ("in_numbers",
     mk_trait Str (Some "#iters ftol") true false (Some 3) (Some "%s")
       None None) ].

Definition DiffeoOutputSpec : spec :=
  [ ("out_file", mk_trait File None true false None None None None);
    ("out_file_xfm", mk_trait File None true false None None None None) ].

Module DiffeoTask.

Definition input_spec : spec := DiffeoInputSpec.
Definition output_spec : spec := DiffeoOutputSpec.
Definition _cmd : string := "dti_diffeomorphic_sn".

Definition _list_outputs : M outputs :=
  let outputs := get_traits output_spec in
  v ← getattr input_spec "in_fixed_tensor";
  xfm ← py_replace v ".nii.gz" "_aff_diffeo.df.nii.gz";
  let outputs := <["out_file_xfm" := PyStr xfm]> outputs in
  v ← getattr input_spec "in_fixed_tensor";
  out ← py_replace v ".nii.gz" "_aff_diffeo.nii.gz";
  let outputs := <["out_file" := PyStr out]> outputs in
  mret outputs.

End DiffeoTask.

Definition ComposeXfmInputSpec : spec :=
  [ ("in_df",
     mk_trait Str (Some "diffeomorphic file.df.nii.gz") true false
       (Some 1) (Some "-df %s") None None);
    ("in_aff",
     mk_trait Str (Some "affine file.aff") true false
       (Some 0) (Some "-aff %s") None None);
    ("out_path",
     mk_trait Str (Some "output_path") true false
       (Some 2) (Some "-out %s") (Some "in_df")
       (Some "%s_comboaff.nii.gz")) ].

Definition ComposeXfmOutputSpec : spec :=
  [ ("out_file", mk_trait File (Some "cheese") true false None None None None) ].

Module ComposeXfmTask.

Definition input_spec : spec := ComposeXfmInputSpec.
Definition output_spec : spec := ComposeXfmOutputSpec.
Definition _cmd : string := "dfRightComposeAffine".

Definition _list_outputs : M outputs :=
  let outputs := get_traits output_spec in
  v ← getattr input_spec "in_df";
  out ← py_replace v ".df.nii.gz" "_combo.df.nii.gz";
  let outputs := <["out_file" := PyStr out]> outputs in
  mret outputs.

End ComposeXfmTask.

Definition diffeoSymTensor3DVolInputSpec : spec :=
  [ ("in_tensor",
     mk_trait Str (Some "moving tensor") true false
       (Some 0) (Some "-in %s") None None);
    ("in_xfm",
     mk_trait Str (Some "transform to apply") true false
       (Some 1) (Some "-trans %s") None None);
    ("in_target",
     mk_trait Str (Some "") true false (Some 2) (Some "-target %s")
       None None);
    ("out_path",
     mk_trait Str (Some "") true false (Some 3) (Some "-out %s")
       (Some "in_tensor") (Some "%s_diffeoxfmd.nii.gz")) ].

Definition diffeoSymTensor3DVolOutputSpec : spec :=
  [ ("out_file", mk_trait File (Some "cheese") true false None None None None) ].

Module diffeoSymTensor3DVolTask.

Definition input_spec : spec := diffeoSymTensor3DVolInputSpec.
Definition output_spec : spec := diffeoSymTensor3DVolOutputSpec.
Definition _cmd : string := "deformationSymTensor3DVolume".

Definition _list_outputs : M outputs :=
  let outputs := get_traits output_spec in
  v ← getattr input_spec "out_path";
  let outputs := <["out_file" := v]> outputs in
  mret outputs.

End diffeoSymTensor3DVolTask.

Definition affSymTensor3DVolInputSpec : spec :=
  [ ("in_tensor",
     mk_trait Str (Some "moving tensor") true false
       (Some 0) (Some "-in %s") None None);
    ("in_xfm",
     mk_trait Str (Some "transform to apply") true false
       (Some 1) (Some "-trans %s") None None);
    ("in_target",
     mk_trait Str (Some "") true false (Some 2) (Some "-target %s")
       None None);
    ("out_path",
     mk_trait Str (Some "") true false (Some 3) (Some "-out %s")
       (Some "in_tensor") (Some "%s_affxfmd.nii.gz")) ].

Definition affSymTensor3DVolOutputSpec : spec :=
  [ ("out_file", mk_trait File (Some "cheese") true false None None None None) ].

Module affSymTensor3DVolTask.

Definition input_spec : spec := affSymTensor3DVolInputSpec.
Definition output_spec : spec := affSymTensor3DVolOutputSpec.
Definition _cmd : string := "affineSymTensor3DVolume".

Definition _list_outputs (cwd : string) : M outputs :=
  let outputs := get_traits output_spec in
  v ← getattr input_spec "out_path";
  out ← py_abspath cwd v;
  let outputs := <["out_file" := PyStr out]> outputs in
  mret outputs.

End affSymTensor3DVolTask.

Definition affScalarVolInputSpec : spec :=
  [ ("in_volume",
     mk_trait Str (Some "moving volume") true false
       (Some 0) (Some "-in %s") None None);
    ("in_xfm",
     mk_trait Str (Some "transform to apply") true false
       (Some 1) (Some "-trans %s") None None);
    ("in_target",
     mk_trait Str (Some "") false false (Some 2) (Some "-target %s")
       None None);
    ("out_path",
     mk_trait Str (Some "") false false (Some 3) (Some "-out %s")
       (Some "in_volume") (Some "%s_affxfmd.nii.gz")) ].

Definition affScalarVolOutputSpec : spec :=
  [ ("out_file",
     mk_trait File (Some "moved volume") true false None None None None) ].

Module affScalarVolTask.

Definition input_spec : spec := affScalarVolInputSpec.
Definition output_spec : spec := affScalarVolOutputSpec.
Definition _cmd : string := "affineScalarVolume".

Definition _list_outputs (cwd : string) : M outputs :=
  let outputs := get_traits output_spec in
  v ← getattr input_spec "out_path";
  out ← py_abspath cwd v;
  let outputs := <["out_file" := PyStr out]> outputs in
  mret outputs.

End affScalarVolTask.

Definition diffeoScalarVolInputSpec : spec :=
  [ ("in_volume",
     mk_trait Str (Some "moving volume") true false
       (Some 0) (Some "-in %s") None None);
    ("in_xfm",
     mk_trait Str (Some "transform to apply") true false
       (Some 2) (Some "-trans %s") None None);
    ("in_target",
     mk_trait Str (Some "") true false (Some 3) (Some "-target %s")
       None None);
    ("out_path",
     mk_trait Str (Some "") false false (Some 1) (Some "-out %s")
       (Some "in_volume") (Some "%s_diffeoxfmd.nii.gz"));
    ("in_vsize",
     mk_trait Str (Some "") true false (Some 4) (Some "-vsize %s")
       None None);
    ("in_flip",
     mk_trait Str (Some "") true false (Some 5) (Some "-flip %s")
       None None);
    ("in_type",
     mk_trait Str (Some "") true false (Some 6) (Some "-type %s")
       None None);
    ("in_interp",
     mk_trait Str (Some "0 trilin, 1 NN") true false (Some 7)
       (Some "-interp %s") None None) ].

Definition diffeoScalarVolOutputSpec : spec :=
  [ ("out_file",
     mk_trait File (Some "moved volume") true false None None None None) ].

Module diffeoScalarVolTask.

Definition input_spec : spec := diffeoScalarVolInputSpec.
Definition output_spec : spec := diffeoScalarVolOutputSpec.
Definition _cmd : string := "deformationScalarVolume".

Definition _list_outputs (cwd : string) : M outputs :=
  let outputs := get_traits output_spec in
  p ← getattr input_spec "out_path";
  (if negb (isdefined p) then
     v ← getattr input_spec "in_volume";
     name ← py_fname_presuffix cwd v "_diffeoxfmd" (posixpath.abspath cwd ".");
     setattr input_spec "out_path" name
   else mret tt);;
  p ← getattr input_spec "out_path";
  out ← py_abspath cwd p;
  let outputs := <["out_file" := PyStr out]> outputs in
  mret outputs.

End diffeoScalarVolTask.

(** The task classes of the module, and the [_list_outputs] each one
    runs. *)
Inductive task : Type :=
| Rigid
| Affine
| Diffeo
| ComposeXfm
| diffeoSymTensor3DVol
| affSymTensor3DVol
| affScalarVol
| diffeoScalarVol.

Definition list_outputs (cwd : string) (t : task) : M outputs :=
  match t with
  | Rigid => RigidTask._list_outputs
  | Affine => AffineTask._list_outputs
  | Diffeo => DiffeoTask._list_outputs
  | ComposeXfm => ComposeXfmTask._list_outputs
  | diffeoSymTensor3DVol => diffeoSymTensor3DVolTask._list_outputs
  | affSymTensor3DVol => affSymTensor3DVolTask._list_outputs cwd
  | affScalarVol => affScalarVolTask._list_outputs cwd
  | diffeoScalarVol => diffeoScalarVolTask._list_outputs cwd
  end.

(** ** Vocabulary of the statements *)

(** A string without a path separator. *)
Definition no_sep (s : string) : bool :=
  str.all (fun c => negb (Ascii.eqb c posixpath.sep)) s.

(** A path component that names a directory entry: not empty, not ['.'],
    not ['..'], and without a separator. *)
Definition is_name (comp : string) : bool :=
  negb (String.eqb comp "") && negb (String.eqb comp ".") &&
  negb (String.eqb comp "..") && no_sep comp.

(** The path of [k] leading slashes and the components [comps]. *)
Definition rooted (k : nat) (comps : list string) : string :=
  str.repeat posixpath.sep k +:+ str.join "/" comps.

(** What C2 describes: only a trailing [old] is replaced, and every earlier
    occurrence stays. *)
Definition replace_trailing (s old new : string) : string :=
  if str.endswith s old
  then str.take (String.length s - String.length old) s +:+ new
  else s.

(** A body that never assigns. *)
Definition readonly {A : Type} (m : M A) : Prop :=
  forall i : inputs, (m i).2 = i.

(** A body that assigns, at most, the attribute [name]. *)
Definition assigns_only {A : Type} (name : string) (m : M A) : Prop :=
  forall (i : inputs) (k : string), k <> name -> (m i).2 !! k = i !! k.

#[global] Instance task_eq_dec : EqDecision task.
Proof. solve_decision. Defined.

(** ** Vocabulary of the further statements *)

Definition input_spec_of (t : task) : spec :=
  match t with
  | Rigid => RigidTask.input_spec
  | Affine => AffineTask.input_spec
  | Diffeo => DiffeoTask.input_spec
  | ComposeXfm => ComposeXfmTask.input_spec
  | diffeoSymTensor3DVol => diffeoSymTensor3DVolTask.input_spec
  | affSymTensor3DVol => affSymTensor3DVolTask.input_spec
  | affScalarVol => affScalarVolTask.input_spec
  | diffeoScalarVol => diffeoScalarVolTask.input_spec
  end.

Definition output_spec_of (t : task) : spec :=
  match t with
  | Rigid => RigidTask.output_spec
  | Affine => AffineTask.output_spec
  | Diffeo => DiffeoTask.output_spec
  | ComposeXfm => ComposeXfmTask.output_spec
  | diffeoSymTensor3DVol => diffeoSymTensor3DVolTask.output_spec
  | affSymTensor3DVol => affSymTensor3DVolTask.output_spec
  | affScalarVol => affScalarVolTask.output_spec
  | diffeoScalarVol => diffeoScalarVolTask.output_spec
  end.

(** The attributes of [self.inputs] that occur in the body of a task's
    [_list_outputs]. *)
Definition reads (t : task) : list string :=
  match t with
  | Rigid => ["in_file"]
  | Affine => ["in_fixed_tensor"]
  | Diffeo => ["in_fixed_tensor"]
  | ComposeXfm => ["in_df"]
  | diffeoSymTensor3DVol => ["out_path"]
  | affSymTensor3DVol => ["out_path"]
  | affScalarVol => ["out_path"]
  | diffeoScalarVol => ["out_path"; "in_volume"]
  end.

(** [s.count(old)] for a non-empty [old]: the number of matches the scan
    of [replace] finds, with the same [skip] behind a match. *)
Fixpoint count_scan (old : string) (skip : nat) (s : string) : nat :=
  match s with
  | EmptyString => O
  | String c s' =>
      match skip with
      | S k => count_scan old k s'
      | O =>
          if str.startswith (String c s') old
          then S (count_scan old (String.length old - 1) s')
          else count_scan old 0 s'
      end
  end.

(** ** The words of the statements about file names

    What the statements below mean by the directory and the base name of a
    path and by the stem and the file extension of a base name, said with
    concatenation and equality of strings alone: none of the functions of
    the program occurs here. *)

(** The character [c] occurs in [s]. *)
Definition occurs (c : ascii) (s : string) : Prop :=
  exists a t : string, s = a +:+ String c t.

(** [v] is the directory part [dir], empty or ending in a slash, followed
    by the base name [b], in which no slash occurs. *)
Definition directory_and_base (v dir b : string) : Prop :=
  v = dir +:+ b /\ ~ occurs "/" b /\ (dir = "" \/ exists d, dir = d +:+ "/").

(** [x] reads as [y] when the case of the letters of [x] is ignored: at
    each place the two have the same character, or [x] has the upper-case
    letter ([A] to [Z], codes 65 to 90) of the character of [y]. *)
Inductive ignoring_case : string -> string -> Prop :=
| ignoring_case_nil : ignoring_case "" ""
| ignoring_case_same (c : ascii) (x y : string) :
    ignoring_case x y -> ignoring_case (String c x) (String c y)
| ignoring_case_upper (c d : ascii) (x y : string) :
    (65 <= nat_of_ascii c <= 90)%nat ->
    nat_of_ascii d = (nat_of_ascii c + 32)%nat ->
    ignoring_case x y -> ignoring_case (String c x) (String d y).

(** The extensions of two parts that count as one file extension. *)
Definition special_extension (x : string) : Prop :=
  ignoring_case x ".nii.gz" \/ ignoring_case x ".tar.gz".

(** [b] is something, not empty, followed by a special extension. *)
Definition has_special_extension (b : string) : Prop :=
  exists s x : string, b = s +:+ x /\ s <> "" /\ special_extension x.

(** The base name [b] is the stem [stem] followed by the file extension
    [ext]:
    - a special extension behind a stem that is not empty; else
    - the part of [b] from its last dot on, when something other than dots
      stands before that dot; else
    - nothing: [b] has no dot, or only dots before each of its dots. *)
Definition stem_and_extension (b stem ext : string) : Prop :=
  b = stem +:+ ext /\
  ((stem <> "" /\ special_extension ext) \/
   (~ has_special_extension b /\
    (exists e : string, ext = String "." e /\ ~ occurs "." e) /\
    (exists c : ascii, occurs c stem /\ c <> "."%char)) \/
   (~ has_special_extension b /\ ext = "" /\
    forall (s e : string) (c : ascii),
      b = s +:+ String "." e -> occurs c s -> c = "."%char)).

(** * Facts *)

#[local] Arguments Ascii.eqb : simpl never.

(** ** Strings *)

Module str_facts.
Import str.

Lemma app_nil_r (s : string) : s +:+ "" = s.
Proof. induction s as [|c s IH]; simpl; [done | by rewrite IH]. Qed.

Lemma app_assoc (s t u : string) : (s +:+ t) +:+ u = s +:+ (t +:+ u).
Proof. induction s as [|c s IH]; simpl; [done | by rewrite IH]. Qed.

(** Take the first character off a successful [startswith] test. *)
Ltac peel H :=
  simpl in H;
  first
    [ discriminate H
    | let E := fresh "E" in
      apply andb_prop in H as [E H]; apply Ascii.eqb_eq in E;
      first [ discriminate E | subst ] ].

Lemma length_app (s t : string) :
  String.length (s +:+ t) = (String.length s + String.length t)%nat.
Proof. induction s as [|c s IH]; simpl; [done | by rewrite IH]. Qed.

Lemma contains_cons (c : ascii) (s sub : string) :
  contains (String c s) sub = false ->
  startswith (String c s) sub = false /\ contains s sub = false.
Proof. cbn [contains]. intros H. by apply orb_false_elim in H. Qed.

(** Without an occurrence of [old] the scan copies its input. *)
Lemma replace_scan_absent (old new s : string) :
  contains s old = false -> replace_scan old new 0 s = s.
Proof.
  induction s as [|c s IH]; [done|].
  intros [Hhd Htl]%contains_cons.
  cbn [replace_scan]. rewrite Hhd. by rewrite IH.
Qed.

Lemma replace_absent (old new s : string) :
  contains s old = false -> replace s old new = s.
Proof.
  destruct old as [|a old]; [by destruct s|].
  apply replace_scan_absent.
Qed.

(** [".nii.gz"] has no proper border: an occurrence that starts inside
    [a] and reaches into a following [".nii.gz"] is impossible, so a match
    at the head of [a +:+ ".nii.gz" +:+ b] with [a] not empty lies in
    [a]. *)
Lemma nii_gz_no_straddle (a b : string) :
  startswith (a +:+ ".nii.gz" +:+ b) ".nii.gz" = true ->
  a = "" \/ startswith a ".nii.gz" = true.
Proof.
  intros H.
  destruct a as [|c a]; [by left | right].
  peel H. simpl. rewrite ?Ascii.eqb_refl. simpl.
  do 6 (destruct a as [|c a];
        [ exfalso; repeat peel H
        | peel H; simpl; rewrite ?Ascii.eqb_refl; simpl ]).
  by destruct a.
Qed.

(** The scan resumes behind a match. *)
Lemma replace_scan_skip (old new : string) (skip : nat) (s : string) :
  replace_scan old new skip s = replace_scan old new 0 (drop skip s).
Proof.
  revert s. induction skip as [|k IH]; intros s; [by destruct s|].
  destruct s as [|c s]; [done|]. simpl. apply IH.
Qed.

Lemma startswith_app (s t : string) : startswith (s +:+ t) s = true.
Proof.
  induction s as [|c s IH]; [done|].
  simpl. by rewrite Ascii.eqb_refl, IH.
Qed.

Lemma drop_app (s t : string) : drop (String.length s) (s +:+ t) = t.
Proof. induction s as [|c s IH]; [by destruct t | done]. Qed.

Lemma replace_scan_match (old new s : string) :
  old <> "" ->
  replace_scan old new 0 (old +:+ s) = new +:+ replace_scan old new 0 s.
Proof.
  destruct old as [|a old]; [done|]. intros _.
  change (String a old +:+ s) with (String a (old +:+ s)).
  cbn [replace_scan].
  change (String a (old +:+ s)) with (String a old +:+ s).
  rewrite startswith_app. f_equal.
  rewrite replace_scan_skip. cbn [String.length]. 
  replace (S (String.length old) - 1)%nat with (String.length old) by lia.
  by rewrite drop_app.
Qed.

(** The first occurrence of [".nii.gz"] behind a text free of it is
    replaced and the scan goes on behind it. *)
Lemma replace_scan_nii_gz (new a b : string) :
  contains a ".nii.gz" = false ->
  replace_scan ".nii.gz" new 0 (a +:+ ".nii.gz" +:+ b)
  = a +:+ new +:+ replace_scan ".nii.gz" new 0 b.
Proof.
  induction a as [|c a IH]; intros Ha.
  - change ("" +:+ ?x) with x. by apply replace_scan_match.
  - apply contains_cons in Ha as [Hhd Htl].
    change (String c a +:+ ?x) with (String c (a +:+ x)).
    cbn [replace_scan].
    destruct (startswith (String c (a +:+ ".nii.gz" +:+ b)) ".nii.gz") eqn:E.
    + apply (nii_gz_no_straddle (String c a) b) in E as [E|E]; congruence.
    + by rewrite IH.
Qed.

End str_facts.

(** ** The models against Python's results *)

Example replace_every_occurrence : str.replace "a.b.c" "." "--" = "a--b--c".
Proof. reflexivity. Qed.

Example replace_left_to_right : str.replace "aaa" "aa" "b" = "ba".
Proof. reflexivity. Qed.

Example replace_empty_pattern : str.replace "ab" "" "-" = "-a-b-".
Proof. reflexivity. Qed.

Example split_keeps_empty_pieces : str.split "/a//b/" "/" = [""; "a"; ""; "b"; ""].
Proof. reflexivity. Qed.

Example normpath_two_slashes : posixpath.normpath "//a//b/../c/." = "//a/c".
Proof. reflexivity. Qed.

Example normpath_above_root : posixpath.normpath "///a/../../c" = "/c".
Proof. reflexivity. Qed.

Example normpath_relative : posixpath.normpath "a/../../b" = "../b".
Proof. reflexivity. Qed.

Example normpath_empty : posixpath.normpath "" = ".".
Proof. reflexivity. Qed.

Example abspath_here : posixpath.abspath "/home/user" "." = "/home/user".
Proof. reflexivity. Qed.

Example dirname_strips : posixpath.dirname "/x/y///a.b" = "/x/y".
Proof. reflexivity. Qed.

Example splitext_leading_dots : posixpath.splitext "..x.y" = ("..x", ".y").
Proof. reflexivity. Qed.

Example splitext_hidden_file : posixpath.splitext ".bashrc" = (".bashrc", "").
Proof. reflexivity. Qed.

Example split_filename_nii_gz :
  filemanip.split_filename "/x/y/file.NII.gz" = ("/x/y", "file", ".NII.gz").
Proof. reflexivity. Qed.

Example split_filename_plain :
  filemanip.split_filename "data/a.b.c" = ("data", "a.b", ".c").
Proof. reflexivity. Qed.

Example format_template :
  format "%s_comboaff.nii.gz" "ants_Warp" = "ants_Warp_comboaff.nii.gz".
Proof. reflexivity. Qed.

(** The inputs of the AffineTask docstring. *)
Example AffineTask_docstring :
  (AffineTask._list_outputs
     {["in_fixed_tensor" := "diffusion.nii"; "in_moving_txt" := "dirs.txt";
       "in_similarity_metric" := "EDS"]}).1
  = inr (<["out_file" := PyStr "diffusion.nii"]>
           (<["out_file_xfm" := PyStr "diffusion.nii"]>
              (get_traits AffineTask.output_spec))).
Proof. reflexivity. Qed.

(** ** Paths *)

Module posixpath_facts.
Import posixpath.

Lemma isabs_cons (p : string) :
  isabs p = true -> exists p', p = String "/" p'.
Proof.
  unfold isabs. destruct p as [|c p]; [done|]. simpl.
  rewrite andb_true_r. intros ->%Ascii.eqb_eq. by eexists.
Qed.


Lemma join_isabs (a b : string) :
  isabs a = true -> isabs (join a b) = true.
Proof.
  intros Ha. unfold join.
  destruct (str.startswith b "/") eqn:Hb; [done|].
  apply isabs_cons in Ha as [a' ->].
  by destruct (_ || _).
Qed.


End posixpath_facts.

Module normpath_facts.
Import posixpath posixpath_facts.

Lemma eqb_sep_false (c : ascii) :
  negb (Ascii.eqb c sep) = true -> Ascii.eqb c sep = false.
Proof. by destruct (Ascii.eqb c sep). Qed.

Lemma no_sep_cons (c : ascii) (s : string) :
  no_sep (String c s) = true -> Ascii.eqb c sep = false /\ no_sep s = true.
Proof.
  unfold no_sep. simpl. intros [Hc Hs]%andb_prop.
  by apply eqb_sep_false in Hc.
Qed.

Lemma no_sep_app (s t : string) :
  no_sep (s +:+ t) = no_sep s && no_sep t.
Proof.
  unfold no_sep. induction s as [|c s IH]; [done|].
  simpl. by rewrite IH, andb_assoc.
Qed.

Lemma no_sep_take (n : nat) (s : string) :
  no_sep s = true -> no_sep (str.take n s) = true.
Proof.
  revert s. induction n as [|n IH]; intros [|c s]; try done.
  unfold no_sep. simpl. intros [Hc Hs]%andb_prop.
  rewrite Hc. by apply IH.
Qed.

Lemma no_sep_drop (n : nat) (s : string) :
  no_sep s = true -> no_sep (str.drop n s) = true.
Proof.
  revert s. induction n as [|n IH]; intros [|c s]; try done.
  unfold no_sep. simpl. intros [Hc Hs]%andb_prop. by apply IH.
Qed.

(** *** [split] and [join] *)

Lemma split_not_nil (s : string) : str.split s sep <> [].
Proof.
  induction s as [|c s IH]; [done|]. simpl.
  destruct (Ascii.eqb c sep); [done|]. by destruct (str.split s sep).
Qed.

Lemma split_name (a : string) :
  no_sep a = true -> str.split a sep = [a].
Proof.
  induction a as [|c a IH]; [done|].
  intros [Hc Ha]%no_sep_cons. simpl. by rewrite Hc, IH.
Qed.

Lemma split_name_app (a s : string) :
  no_sep a = true ->
  str.split (a +:+ String sep s) sep = a :: str.split s sep.
Proof.
  induction a as [|c a IH].
  - intros _. simpl. by rewrite ?Ascii.eqb_refl.
  - intros [Hc Ha]%no_sep_cons. simpl. by rewrite Hc, IH.
Qed.

Lemma split_join (comps : list string) :
  Forall (fun c => no_sep c = true) comps -> comps <> [] ->
  str.split (str.join "/" comps) sep = comps.
Proof.
  induction 1 as [|a comps Ha Hrest IH]; [done|]. intros _.
  destruct comps as [|b comps]; [by apply split_name|].
  change (str.join "/" (a :: b :: comps))
    with (a +:+ String sep (str.join "/" (b :: comps))).
  rewrite split_name_app by done. by rewrite IH.
Qed.

Lemma split_no_sep (s : string) :
  Forall (fun c => no_sep c = true) (str.split s sep).
Proof.
  induction s as [|c s IH]; [by repeat constructor|]. simpl.
  destruct (Ascii.eqb c sep) eqn:Hc; [by constructor|].
  destruct (str.split s sep) as [|p ps].
  - repeat constructor. unfold no_sep. simpl. by rewrite Hc.
  - inversion_clear IH as [|? ? Hp Hps]. constructor; [|done].
    unfold no_sep in *. simpl. by rewrite Hc, Hp.
Qed.

Lemma join_snoc (comps : list string) (a : string) :
  comps <> [] ->
  str.join "/" (comps ++ [a]) = str.join "/" comps +:+ "/" +:+ a.
Proof.
  induction comps as [|b comps IH]; [done|]. intros _.
  destruct comps as [|c comps]; [done|].
  change (str.join "/" ((b :: c :: comps) ++ [a]))
    with (b +:+ "/" +:+ str.join "/" ((c :: comps) ++ [a])).
  rewrite IH by done.
  change (str.join "/" (b :: c :: comps))
    with (b +:+ "/" +:+ str.join "/" (c :: comps)).
  by rewrite !str_facts.app_assoc.
Qed.

(** *** Names *)

Lemma is_name_no_sep (a : string) : is_name a = true -> no_sep a = true.
Proof. unfold is_name. by intros [_ H]%andb_prop. Qed.

Lemma is_name_cons (a : string) :
  is_name a = true ->
  exists c a', a = String c a' /\ Ascii.eqb c sep = false /\ no_sep a' = true.
Proof.
  intros H. assert (Hs := is_name_no_sep _ H).
  destruct a as [|c a']; [done|].
  apply no_sep_cons in Hs as [Hc Ha']. by exists c, a'.
Qed.

Lemma is_name_long (a : string) :
  (3 <= String.length a)%nat -> no_sep a = true -> is_name a = true.
Proof.
  intros Hlen Hs. unfold is_name. rewrite Hs.
  destruct a as [|c1 [|c2 [|c3 a]]]; simpl in Hlen; try lia.
  simpl. by destruct (Ascii.eqb c1 "."), (Ascii.eqb c2 ".").
Qed.

Lemma is_name_not_dotdot (a : string) :
  is_name a = true -> String.eqb a ".." = false.
Proof.
  unfold is_name. intros [[[_ _]%andb_prop H]%andb_prop _]%andb_prop.
  by destruct (String.eqb a "..").
Qed.

Lemma is_name_not_skipped (a : string) :
  is_name a = true -> String.eqb a "" || String.eqb a "." = false.
Proof.
  unfold is_name. intros [[[H1 H2]%andb_prop _]%andb_prop _]%andb_prop.
  by destruct (String.eqb a ""), (String.eqb a ".").
Qed.

End normpath_facts.

Module normal_form.
Import posixpath posixpath_facts normpath_facts.

(** *** The loop of [normpath] *)

Lemma normpath_step_name (k : nat) (acc : list string) (comp : string) :
  is_name comp = true -> normpath_step k acc comp = acc ++ [comp].
Proof.
  intros H. unfold normpath_step.
  by rewrite (is_name_not_skipped _ H), (is_name_not_dotdot _ H).
Qed.

Lemma normpath_fold_names (k : nat) (comps acc : list string) :
  Forall (fun c => is_name c = true) comps ->
  fold_left (normpath_step k) comps acc = acc ++ comps.
Proof.
  intros H. revert acc.
  induction H as [|c comps Hc Hrest IH]; intros acc; simpl.
  - by rewrite app_nil_r.
  - rewrite normpath_step_name by done. rewrite IH.
    by rewrite <- app_assoc.
Qed.

Lemma Forall_removelast {A : Type} (P : A -> Prop) (l : list A) :
  Forall P l -> Forall P (removelast l).
Proof.
  induction 1 as [|x l Hx Hl IH]; [done|].
  simpl. destruct l; [constructor | by constructor].
Qed.

Lemma last_name_not_dotdot (acc : list string) :
  Forall (fun c => is_name c = true) acc ->
  bool_decide (last acc = Some "..") = false.
Proof.
  intros H. apply bool_decide_eq_false. intros Hlast.
  apply last_Some in Hlast as [acc' ->].
  apply Forall_app in H as [_ H]. by inversion_clear H.
Qed.

(** Below a root, the loop keeps only names: ['..'] pops or is dropped. *)
Lemma normpath_step_keeps_names (k : nat) (acc : list string) (comp : string) :
  (1 <= k)%nat ->
  Forall (fun c => is_name c = true) acc ->
  no_sep comp = true ->
  Forall (fun c => is_name c = true) (normpath_step k acc comp).
Proof.
  intros Hk Hacc Hcomp. unfold normpath_step.
  destruct (String.eqb comp "" || String.eqb comp ".") eqn:Hskip; [done|].
  rewrite (last_name_not_dotdot _ Hacc), andb_false_r, orb_false_r.
  replace (k =? 0)%nat with false by (symmetry; apply Nat.eqb_neq; lia).
  rewrite andb_false_l, orb_false_r.
  destruct (String.eqb comp "..") eqn:Hdd; simpl.
  - by apply Forall_removelast.
  - apply Forall_app. split; [done|]. repeat constructor.
    unfold is_name. rewrite Hdd, Hcomp.
    apply orb_false_elim in Hskip as [-> ->]. done.
Qed.

Lemma normpath_fold_keeps_names (k : nat) (comps acc : list string) :
  (1 <= k)%nat ->
  Forall (fun c => no_sep c = true) comps ->
  Forall (fun c => is_name c = true) acc ->
  Forall (fun c => is_name c = true) (fold_left (normpath_step k) comps acc).
Proof.
  intros Hk H. revert acc.
  induction H as [|c comps Hc Hrest IH]; intros acc Hacc; [done|].
  simpl. by apply IH, normpath_step_keeps_names.
Qed.

(** *** Rooted paths *)

Lemma join_names_head (comps : list string) :
  Forall (fun c => is_name c = true) comps ->
  str.startswith (str.join "/" comps) "/" = false.
Proof.
  destruct 1 as [|a comps Ha Hrest]; [done|].
  apply is_name_cons in Ha as (c & a' & -> & Hc & _).
  unfold sep in Hc. destruct comps; simpl; by rewrite Ascii.eqb_sym, Hc.
Qed.

(** The number of leading slashes [normpath] counts on a rooted path. *)
Lemma rooted_initial_slashes (k : nat) (comps : list string) :
  k = 1%nat \/ k = 2%nat ->
  Forall (fun c => is_name c = true) comps ->
  (if str.startswith (rooted k comps) "/" then
     if str.startswith (rooted k comps) "//" &&
        negb (str.startswith (rooted k comps) "///")
     then 2%nat else 1%nat
   else 0%nat) = k.
Proof.
  intros Hk Hcomps. assert (H := join_names_head _ Hcomps).
  unfold rooted.
  by destruct Hk as [-> | ->]; simpl; simpl in H; rewrite ?H.
Qed.

Lemma normpath_fold_slashes (k n : nat) (s : string) (acc : list string) :
  fold_left (normpath_step k) (str.split (str.repeat sep n +:+ s) sep) acc
  = fold_left (normpath_step k) (str.split s sep) acc.
Proof.
  induction n as [|n IH]; [done|].
  simpl. by rewrite ?Ascii.eqb_refl.
Qed.

Lemma normpath_fold_rooted (k : nat) (comps : list string) :
  Forall (fun c => is_name c = true) comps ->
  fold_left (normpath_step k) (str.split (rooted k comps) sep) [] = comps.
Proof.
  intros Hcomps. unfold rooted. rewrite normpath_fold_slashes.
  destruct comps as [|a comps]; [done|].
  rewrite split_join; [by rewrite normpath_fold_names| |done].
  eapply Forall_impl; [done | apply is_name_no_sep].
Qed.

Lemma rooted_not_empty (k : nat) (comps : list string) :
  k = 1%nat \/ k = 2%nat -> String.eqb (rooted k comps) "" = false.
Proof. by intros [-> | ->]. Qed.

(** A rooted path of names is a fixed point of [normpath]. *)
Lemma normpath_rooted (k : nat) (comps : list string) :
  k = 1%nat \/ k = 2%nat ->
  Forall (fun c => is_name c = true) comps ->
  normpath (rooted k comps) = rooted k comps.
Proof.
  intros Hk Hcomps. unfold normpath.
  rewrite (rooted_not_empty k comps Hk).
  rewrite (rooted_initial_slashes k comps Hk Hcomps).
  rewrite (normpath_fold_rooted k comps Hcomps).
  fold (rooted k comps). by rewrite (rooted_not_empty k comps Hk).
Qed.

(** [normpath] of an absolute path is a rooted path of names. *)
Lemma normpath_is_rooted (path : string) :
  isabs path = true ->
  exists (k : nat) (comps : list string),
    (k = 1%nat \/ k = 2%nat) /\
    Forall (fun c => is_name c = true) comps /\
    normpath path = rooted k comps.
Proof.
  intros Habs. unfold normpath.
  destruct (isabs_cons _ Habs) as [p Hp].
  replace (String.eqb path "") with false by (by rewrite Hp).
  unfold isabs in Habs. rewrite Habs.
  set (k := if str.startswith path "//" && negb (str.startswith path "///")
            then 2%nat else 1%nat).
  assert (Hk : k = 1%nat \/ k = 2%nat).
  { subst k. destruct (_ && _); auto. }
  set (comps := fold_left (normpath_step k) (str.split path sep) []).
  exists k, comps. split; [done|]. split.
  - apply normpath_fold_keeps_names; [lia | apply split_no_sep | done].
  - fold (rooted k comps). by rewrite (rooted_not_empty k comps Hk).
Qed.

End normal_form.

Module join_facts.
Import posixpath posixpath_facts normpath_facts normal_form.

Lemma endswith_no_sep (a : string) :
  no_sep a = true -> str.endswith a "/" = false.
Proof.
  induction a as [|c a IH]; [done|].
  intros [Hc Ha]%no_sep_cons. unfold sep in Hc.
  cbn [str.endswith]. rewrite IH by done. rewrite orb_false_r.
  simpl. rewrite Hc. done.
Qed.

Lemma endswith_app_name (s a : string) :
  is_name a = true -> str.endswith (s +:+ a) "/" = false.
Proof.
  intros Ha. induction s as [|c s IH].
  - by apply endswith_no_sep, is_name_no_sep.
  - change (String c s +:+ a) with (String c (s +:+ a)).
    cbn [str.endswith]. rewrite IH, orb_false_r.
    apply is_name_cons in Ha as (c' & a' & -> & _ & _).
    simpl. destruct (Ascii.eqb c "/"); [|done]. by destruct s.
Qed.

Lemma join_ends_with_name (comps : list string) :
  Forall (fun c => is_name c = true) comps -> comps <> [] ->
  exists s a, str.join "/" comps = s +:+ a /\ is_name a = true.
Proof.
  induction 1 as [|b comps Hb Hrest IH]; [done|]. intros _.
  destruct comps as [|c comps]; [by exists "", b|].
  destruct IH as (s & a & Hs & Ha); [done|].
  exists (b +:+ "/" +:+ s), a. split; [|done].
  change (str.join "/" (b :: c :: comps))
    with (b +:+ "/" +:+ str.join "/" (c :: comps)).
  by rewrite Hs, !str_facts.app_assoc.
Qed.

(** Joining a name to a rooted path of names adds one component. *)
Lemma join_rooted (k : nat) (comps : list string) (name : string) :
  k = 1%nat \/ k = 2%nat ->
  Forall (fun c => is_name c = true) comps ->
  is_name name = true ->
  join (rooted k comps) name = rooted k (comps ++ [name]).
Proof.
  intros Hk Hcomps Hname. unfold join.
  replace (str.startswith name "/") with false.
  2:{ apply is_name_cons in Hname as (c & a' & -> & Hc & _).
      unfold sep in Hc. simpl. by rewrite Ascii.eqb_sym, Hc. }
  rewrite (rooted_not_empty k comps Hk). cbn [orb].
  destruct comps as [|b comps].
  - unfold rooted. by destruct Hk as [-> | ->].
  - destruct (join_ends_with_name (b :: comps)) as (s & a & Hs & Ha);
      [done..|].
    assert (He : str.endswith (rooted k (b :: comps)) "/" = false).
    { unfold rooted. rewrite Hs, <- str_facts.app_assoc.
      by apply endswith_app_name. }
    rewrite He. unfold rooted. rewrite join_snoc by done.
    by rewrite !str_facts.app_assoc.
Qed.

(** *** The pieces of a file name *)

Lemma rfind_lower_bound (s : string) (c : ascii) : -1 <= str.rfind s c.
Proof.
  induction s as [|a s IH]; simpl; [lia|].
  destruct (0 <=? str.rfind s c) eqn:E; [lia|].
  destruct (Ascii.eqb a c); lia.
Qed.

(** Behind the last separator there is none. *)
Lemma basename_no_sep (p : string) : no_sep (basename p) = true.
Proof.
  unfold basename. induction p as [|a p IH]; [done|].
  cbn [str.rfind]. assert (Hlb := rfind_lower_bound p sep).
  destruct (0 <=? str.rfind p sep) eqn:E.
  - apply Z.leb_le in E.
    replace (Z.to_nat (str.rfind p sep + 1 + 1))
      with (S (Z.to_nat (str.rfind p sep + 1))) by lia.
    exact IH.
  - apply Z.leb_gt in E.
    assert (Hr : str.rfind p sep = -1) by lia. rewrite Hr in IH.
    destruct (Ascii.eqb a sep) eqn:Ha; [exact IH|].
    simpl in IH |- *. unfold no_sep in *. simpl. by rewrite Ha.
Qed.

Lemma split_special_no_sep (fname : string) (exts : list string)
    (stem ext : string) :
  no_sep fname = true ->
  filemanip.split_special fname exts = Some (stem, ext) ->
  no_sep stem = true /\ no_sep ext = true.
Proof.
  intros Hf. induction exts as [|e exts IH]; [done|].
  cbn [filemanip.split_special]. case_match; [|done].
  intros [= <- <-]. by split; [apply no_sep_take | apply no_sep_drop].
Qed.

Lemma splitext_no_sep (p : string) :
  no_sep p = true ->
  no_sep (splitext p).1 = true /\ no_sep (splitext p).2 = true.
Proof.
  intros Hp. unfold splitext. case_match; simpl; [|done].
  by split; [apply no_sep_take | apply no_sep_drop].
Qed.

Lemma split_filename_no_sep (path pth stem ext : string) :
  filemanip.split_filename path = (pth, stem, ext) ->
  no_sep stem = true /\ no_sep ext = true.
Proof.
  unfold filemanip.split_filename.
  assert (Hb := basename_no_sep path).
  destruct (filemanip.split_special (basename path) _)
    as [[stem' ext']|] eqn:E.
  - intros [= _ <- <-]. by eapply split_special_no_sep.
  - destruct (splitext (basename path)) as [stem' ext'] eqn:E'.
    intros [= _ <- <-].
    destruct (splitext_no_sep _ Hb) as [H1 H2]. by rewrite E' in H1, H2.
Qed.

(** A stem and an extension around a suffix of three characters or more
    make a name. *)
Lemma presuffix_is_name (stem suffix ext : string) :
  no_sep stem = true -> no_sep ext = true -> no_sep suffix = true ->
  (3 <= String.length suffix)%nat ->
  is_name ("" +:+ stem +:+ suffix +:+ ext) = true.
Proof.
  intros Hs He Hx Hlen. change ("" +:+ ?x) with x.
  apply is_name_long.
  - rewrite !str_facts.length_app. lia.
  - by rewrite !no_sep_app, Hs, He, Hx.
Qed.

End join_facts.

(** ** Reading inputs and running method bodies *)

Lemma getattr_assigned (sp : spec) (name s : string) (i : inputs) :
  i !! name = Some s -> getattr sp name i = (inr (PyStr s), i).
Proof. intros H. unfold getattr. by rewrite H. Qed.

Lemma getattr_undeclared (sp : spec) (name : string) (i : inputs) :
  i !! name = None -> trait_of sp name = None ->
  getattr sp name i = (inl AttributeError, i).
Proof. intros H1 H2. unfold getattr. by rewrite H1, H2. Qed.

Lemma getattr_frame (sp : spec) (name : string) (i : inputs) :
  (getattr sp name i).2 = i.
Proof. unfold getattr. by repeat case_match. Qed.

Lemma bind_run {A B : Type} (m : M A) (k : A -> M B) (i : inputs) :
  (m ≫= k) i =
  match m i with
  | (inl e, i') => (inl e, i')
  | (inr a, i') => k a i'
  end.
Proof. reflexivity. Qed.

(** Take one step of a method body whose next statement reads an assigned
    input. *)
Ltac read_input H :=
  rewrite bind_run, (getattr_assigned _ _ _ _ H); cbn [py_replace py_abspath].

(** ** Tasks that name their outputs by [replace] *)

Lemma AffineTask_list_outputs_assigned (s : string) (i : inputs) :
  i !! "in_fixed_tensor" = Some s ->
  AffineTask._list_outputs i =
  (inr (<["out_file" := PyStr (str.replace s ".nii.gz" "_aff.nii.gz")]>
          (<["out_file_xfm" := PyStr (str.replace s ".nii.gz" ".aff")]>
             (get_traits AffineTask.output_spec))), i).
Proof.
  intros H. unfold AffineTask._list_outputs.
  read_input H. rewrite bind_run. cbn [mret M_ret].
  read_input H. by rewrite bind_run.
Qed.

Lemma DiffeoTask_list_outputs_assigned (s : string) (i : inputs) :
  i !! "in_fixed_tensor" = Some s ->
  DiffeoTask._list_outputs i =
  (inr (<["out_file" := PyStr (str.replace s ".nii.gz" "_aff_diffeo.nii.gz")]>
          (<["out_file_xfm" :=
               PyStr (str.replace s ".nii.gz" "_aff_diffeo.df.nii.gz")]>
             (get_traits DiffeoTask.output_spec))), i).
Proof.
  intros H. unfold DiffeoTask._list_outputs.
  read_input H. rewrite bind_run. cbn [mret M_ret].
  read_input H. by rewrite bind_run.
Qed.

Lemma ComposeXfmTask_list_outputs_assigned (s : string) (i : inputs) :
  i !! "in_df" = Some s ->
  ComposeXfmTask._list_outputs i =
  (inr (<["out_file" :=
            PyStr (str.replace s ".df.nii.gz" "_combo.df.nii.gz")]>
          (get_traits ComposeXfmTask.output_spec)), i).
Proof.
  intros H. unfold ComposeXfmTask._list_outputs.
  read_input H. by rewrite bind_run.
Qed.

(** Reading back the two entries a registration task writes. *)
Lemma lookup_out_file (x y : pyval) (o : outputs) :
  (<["out_file" := x]> (<["out_file_xfm" := y]> o)) !! "out_file" = Some x.
Proof. by rewrite lookup_insert_eq. Qed.

Lemma lookup_out_file_xfm (x y : pyval) (o : outputs) :
  (<["out_file" := x]> (<["out_file_xfm" := y]> o)) !! "out_file_xfm" = Some y.
Proof. rewrite lookup_insert_ne by done. by rewrite lookup_insert_eq. Qed.

Lemma replace_nii_gz_suffix (base new : string) :
  str.contains base ".nii.gz" = false ->
  str.replace (base +:+ ".nii.gz") ".nii.gz" new = base +:+ new.
Proof.
  intros H. unfold str.replace.
  rewrite <- (str_facts.app_nil_r (base +:+ ".nii.gz")), str_facts.app_assoc.
  rewrite str_facts.replace_scan_nii_gz by done.
  by rewrite str_facts.app_nil_r.
Qed.

(** C5: for an AffineTask whose in_fixed_tensor is base + '.nii.gz' with
    no '.nii.gz' inside base, _list_outputs returns, leaving the inputs as
    they are, out_file_xfm = base + '.aff' and
    out_file = base + '_aff.nii.gz'. *)
Theorem AffineTask_outputs_of_nii_gz (base : string) (i : inputs) :
  str.contains base ".nii.gz" = false ->
  i !! "in_fixed_tensor" = Some (base +:+ ".nii.gz") ->
  exists out : outputs,
    AffineTask._list_outputs i = (inr out, i) /\
    out !! "out_file_xfm" = Some (PyStr (base +:+ ".aff")) /\
    out !! "out_file" = Some (PyStr (base +:+ "_aff.nii.gz")).
Proof.
  intros Hbase Hin. eexists. split.
  - by apply AffineTask_list_outputs_assigned.
  - rewrite lookup_out_file, lookup_out_file_xfm.
    by rewrite !replace_nii_gz_suffix.
Qed.

Lemma AffineTask_outputs_of_nii_gz_witness :
  exists out : outputs,
    AffineTask._list_outputs {["in_fixed_tensor" := "sub01_dti.nii.gz"]}
    = (inr out, {["in_fixed_tensor" := "sub01_dti.nii.gz"]}) /\
    out !! "out_file_xfm" = Some (PyStr "sub01_dti.aff") /\
    out !! "out_file" = Some (PyStr "sub01_dti_aff.nii.gz").
Proof.
  apply (AffineTask_outputs_of_nii_gz "sub01_dti"); reflexivity.
Defined.

(** C6: for a DiffeoTask whose in_fixed_tensor is base + '.nii.gz' with
    no '.nii.gz' inside base, _list_outputs returns, leaving the inputs as
    they are, out_file_xfm = base + '_aff_diffeo.df.nii.gz' and
    out_file = base + '_aff_diffeo.nii.gz'. *)
Theorem DiffeoTask_outputs_of_nii_gz (base : string) (i : inputs) :
  str.contains base ".nii.gz" = false ->
  i !! "in_fixed_tensor" = Some (base +:+ ".nii.gz") ->
  exists out : outputs,
    DiffeoTask._list_outputs i = (inr out, i) /\
    out !! "out_file_xfm" = Some (PyStr (base +:+ "_aff_diffeo.df.nii.gz")) /\
    out !! "out_file" = Some (PyStr (base +:+ "_aff_diffeo.nii.gz")).
Proof.
  intros Hbase Hin. eexists. split.
  - by apply DiffeoTask_list_outputs_assigned.
  - rewrite lookup_out_file, lookup_out_file_xfm.
    by rewrite !replace_nii_gz_suffix.
Qed.

Lemma DiffeoTask_outputs_of_nii_gz_witness :
  exists out : outputs,
    DiffeoTask._list_outputs {["in_fixed_tensor" := "mean.v2.nii.gz"]}
    = (inr out, {["in_fixed_tensor" := "mean.v2.nii.gz"]}) /\
    out !! "out_file_xfm" = Some (PyStr "mean.v2_aff_diffeo.df.nii.gz") /\
    out !! "out_file" = Some (PyStr "mean.v2_aff_diffeo.nii.gz").
Proof.
  apply (DiffeoTask_outputs_of_nii_gz "mean.v2"); reflexivity.
Defined.

(** C8: when in_fixed_tensor holds no '.nii.gz' at all, AffineTask and
    DiffeoTask both return out_file and out_file_xfm equal to
    in_fixed_tensor itself. *)
Theorem registration_outputs_without_nii_gz (s : string) (i : inputs) :
  str.contains s ".nii.gz" = false ->
  i !! "in_fixed_tensor" = Some s ->
  (exists out : outputs,
     AffineTask._list_outputs i = (inr out, i) /\
     out !! "out_file" = Some (PyStr s) /\
     out !! "out_file_xfm" = Some (PyStr s)) /\
  (exists out : outputs,
     DiffeoTask._list_outputs i = (inr out, i) /\
     out !! "out_file" = Some (PyStr s) /\
     out !! "out_file_xfm" = Some (PyStr s)).
Proof.
  intros Hs Hin. split; eexists; (split; [|split]).
  - by apply AffineTask_list_outputs_assigned.
  - by rewrite lookup_out_file, str_facts.replace_absent.
  - by rewrite lookup_out_file_xfm, str_facts.replace_absent.
  - by apply DiffeoTask_list_outputs_assigned.
  - by rewrite lookup_out_file, str_facts.replace_absent.
  - by rewrite lookup_out_file_xfm, str_facts.replace_absent.
Qed.

Lemma registration_outputs_without_nii_gz_witness :
  (exists out : outputs,
     AffineTask._list_outputs {["in_fixed_tensor" := "diffusion.nii"]}
     = (inr out, {["in_fixed_tensor" := "diffusion.nii"]}) /\
     out !! "out_file" = Some (PyStr "diffusion.nii") /\
     out !! "out_file_xfm" = Some (PyStr "diffusion.nii")) /\
  (exists out : outputs,
     DiffeoTask._list_outputs {["in_fixed_tensor" := "diffusion.nii"]}
     = (inr out, {["in_fixed_tensor" := "diffusion.nii"]}) /\
     out !! "out_file" = Some (PyStr "diffusion.nii") /\
     out !! "out_file_xfm" = Some (PyStr "diffusion.nii")).
Proof.
  apply (registration_outputs_without_nii_gz "diffusion.nii"); reflexivity.
Defined.

(** [replace] on pieces that are free of ['.nii.gz'] and separated by it:
    every separator is replaced. *)
Lemma replace_nii_gz_join (new : string) (pieces : list string) :
  Forall (fun p => str.contains p ".nii.gz" = false) pieces ->
  str.replace (str.join ".nii.gz" pieces) ".nii.gz" new = str.join new pieces.
Proof.
  unfold str.replace.
  induction 1 as [|p pieces Hp Hrest IH]; [done|].
  destruct pieces as [|q pieces].
  - by apply str_facts.replace_scan_absent.
  - change (str.join ?sep (p :: q :: pieces))
      with (p +:+ sep +:+ str.join sep (q :: pieces)).
    by rewrite str_facts.replace_scan_nii_gz, IH.
Qed.

(** C2, as stated, fails: with '.nii.gz' in the middle of the path and at
    its end, AffineTask rewrites the occurrence in the middle as well, so
    out_file_xfm is not the path with only its trailing suffix
    substituted. *)
Lemma trailing_only_substitution_fails :
  exists out : outputs,
    AffineTask._list_outputs {["in_fixed_tensor" := "run.nii.gz.d/dti.nii.gz"]}
    = (inr out, {["in_fixed_tensor" := "run.nii.gz.d/dti.nii.gz"]}) /\
    out !! "out_file_xfm" = Some (PyStr "run.aff.d/dti.aff") /\
    replace_trailing "run.nii.gz.d/dti.nii.gz" ".nii.gz" ".aff"
    = "run.nii.gz.d/dti.aff" /\
    out !! "out_file_xfm"
    <> Some (PyStr (replace_trailing "run.nii.gz.d/dti.nii.gz"
                      ".nii.gz" ".aff")).
Proof.
  eexists. split; [by apply AffineTask_list_outputs_assigned|].
  rewrite lookup_out_file_xfm. by repeat split.
Qed.

(** C2, amended: for AffineTask and DiffeoTask and an in_fixed_tensor made
    of pieces free of '.nii.gz' with '.nii.gz' between them (a last piece
    that is empty makes '.nii.gz' the final suffix), _list_outputs
    substitutes every occurrence, the trailing one and the earlier ones:
    each output is the same pieces with the replacement between them. *)
Theorem every_nii_gz_is_substituted (pieces : list string) (i : inputs) :
  Forall (fun p => str.contains p ".nii.gz" = false) pieces ->
  i !! "in_fixed_tensor" = Some (str.join ".nii.gz" pieces) ->
  (exists out : outputs,
     AffineTask._list_outputs i = (inr out, i) /\
     out !! "out_file_xfm" = Some (PyStr (str.join ".aff" pieces)) /\
     out !! "out_file" = Some (PyStr (str.join "_aff.nii.gz" pieces))) /\
  (exists out : outputs,
     DiffeoTask._list_outputs i = (inr out, i) /\
     out !! "out_file_xfm"
       = Some (PyStr (str.join "_aff_diffeo.df.nii.gz" pieces)) /\
     out !! "out_file" = Some (PyStr (str.join "_aff_diffeo.nii.gz" pieces))).
Proof.
  intros Hfree Hin. split; eexists; (split; [|split]).
  - by apply AffineTask_list_outputs_assigned.
  - by rewrite lookup_out_file_xfm, replace_nii_gz_join.
  - by rewrite lookup_out_file, replace_nii_gz_join.
  - by apply DiffeoTask_list_outputs_assigned.
  - by rewrite lookup_out_file_xfm, replace_nii_gz_join.
  - by rewrite lookup_out_file, replace_nii_gz_join.
Qed.

Lemma every_nii_gz_is_substituted_witness :
  (exists out : outputs,
     AffineTask._list_outputs {["in_fixed_tensor" := "run.nii.gz.d/dti.nii.gz"]}
     = (inr out, {["in_fixed_tensor" := "run.nii.gz.d/dti.nii.gz"]}) /\
     out !! "out_file_xfm" = Some (PyStr "run.aff.d/dti.aff") /\
     out !! "out_file" = Some (PyStr "run_aff.nii.gz.d/dti_aff.nii.gz")) /\
  (exists out : outputs,
     DiffeoTask._list_outputs {["in_fixed_tensor" := "run.nii.gz.d/dti.nii.gz"]}
     = (inr out, {["in_fixed_tensor" := "run.nii.gz.d/dti.nii.gz"]}) /\
     out !! "out_file_xfm"
       = Some (PyStr "run_aff_diffeo.df.nii.gz.d/dti_aff_diffeo.df.nii.gz") /\
     out !! "out_file"
       = Some (PyStr "run_aff_diffeo.nii.gz.d/dti_aff_diffeo.nii.gz")).
Proof.
  apply (every_nii_gz_is_substituted ["run"; ".d/dti"; ""]).
  - repeat constructor.
  - reflexivity.
Defined.

(** A RigidTask reads [in_file], which [RigidInputSpec] does not declare:
    with no value held under that name, the first statement raises. *)
Lemma RigidTask_list_outputs_without_in_file (i : inputs) :
  i !! "in_file" = None ->
  RigidTask._list_outputs i = (inl AttributeError, i).
Proof.
  intros H. unfold RigidTask._list_outputs.
  by rewrite bind_run, (getattr_undeclared _ _ _ H).
Qed.

(** C1 fails on the code: with fixed_file, moving_file and
    similarity_metric set as in the class docstring, _list_outputs raises
    AttributeError and returns no outputs. *)
Theorem RigidTask_list_outputs_raises :
  let i : inputs :=
    <["fixed_file" := "diffusion.nii"]>
      (<["moving_file" := "diffusion.nii"]>
         (<["similarity_metric" := "EDS"]> ∅)) in
  i !! "fixed_file" = Some "diffusion.nii" /\
  i !! "moving_file" = Some "diffusion.nii" /\
  i !! "similarity_metric" = Some "EDS" /\
  trait_of RigidTask.input_spec "in_file" = None /\
  RigidTask._list_outputs i = (inl AttributeError, i).
Proof.
  intros i. do 4 (split; [done|]).
  by apply RigidTask_list_outputs_without_in_file.
Qed.

(** C4 fails on the code: for in_df = 'ants_Warp.nii.gz', the value of the
    class docstring, _list_outputs returns out_file = 'ants_Warp.nii.gz',
    while the out_path trait of ComposeXfmInputSpec names its file from
    in_df by the template '%s_comboaff.nii.gz', and no base name put into
    that template gives 'ants_Warp.nii.gz'. *)
Theorem ComposeXfmTask_out_file_is_not_the_template_name :
  let i : inputs := {["in_df" := "ants_Warp.nii.gz"]} in
  (name_source <$> trait_of ComposeXfmTask.input_spec "out_path")
    = Some (Some "in_df") /\
  (name_template <$> trait_of ComposeXfmTask.input_spec "out_path")
    = Some (Some "%s_comboaff.nii.gz") /\
  exists out : outputs,
    ComposeXfmTask._list_outputs i = (inr out, i) /\
    out !! "out_file" = Some (PyStr "ants_Warp.nii.gz") /\
    forall base : string,
      out !! "out_file" <> Some (PyStr (format "%s_comboaff.nii.gz" base)).
Proof.
  intros i. do 2 (split; [done|]). eexists. split; [|split].
  - by apply ComposeXfmTask_list_outputs_assigned.
  - by rewrite lookup_insert_eq.
  - intros base. rewrite lookup_insert_eq. intros [= H].
    assert (Hlen := f_equal String.length H).
    cbn [format] in Hlen. rewrite str_facts.length_app in Hlen.
    destruct base; [done | simpl in Hlen; lia].
Qed.

(** ** What a method body does to the inputs *)

Create HintDb frame.

Lemma readonly_mret {A : Type} (a : A) : readonly (mret a : M A).
Proof. by intros i. Qed.

Lemma readonly_raise {A : Type} (e : exn) : readonly (raise e : M A).
Proof. by intros i. Qed.

Lemma readonly_getattr (sp : spec) (name : string) : readonly (getattr sp name).
Proof. intros i. apply getattr_frame. Qed.

Lemma readonly_py_replace (v : pyval) (old new : string) :
  readonly (py_replace v old new).
Proof. by destruct v. Qed.

Lemma readonly_py_abspath (cwd : string) (v : pyval) :
  readonly (py_abspath cwd v).
Proof. by destruct v. Qed.

Lemma readonly_py_fname_presuffix (cwd : string) (v : pyval)
    (suffix newpath : string) :
  readonly (py_fname_presuffix cwd v suffix newpath).
Proof. by destruct v. Qed.

Lemma readonly_bind {A B : Type} (m : M A) (k : A -> M B) :
  readonly m -> (forall a, readonly (k a)) -> readonly (m ≫= k).
Proof.
  intros Hm Hk i. rewrite bind_run. specialize (Hm i).
  destruct (m i) as [[e|a] i']; simpl in Hm; subst i'; [done | apply Hk].
Qed.

Lemma readonly_assigns_only {A : Type} (name : string) (m : M A) :
  readonly m -> assigns_only name m.
Proof. intros Hm i k _. by rewrite Hm. Qed.

Lemma assigns_only_setattr (sp : spec) (name v : string) :
  assigns_only name (setattr sp name v).
Proof.
  intros i k Hk. unfold setattr.
  repeat case_match; simpl; by rewrite ?lookup_insert_ne.
Qed.

Lemma assigns_only_bind {A B : Type} (name : string) (m : M A) (k : A -> M B) :
  assigns_only name m -> (forall a, assigns_only name (k a)) ->
  assigns_only name (m ≫= k).
Proof.
  intros Hm Hk i n Hn. rewrite bind_run. specialize (Hm i n Hn).
  destruct (m i) as [[e|a] i']; simpl in Hm; [done|].
  by rewrite (Hk a i' n Hn).
Qed.

#[local] Hint Resolve readonly_mret readonly_raise readonly_getattr
  readonly_py_replace readonly_py_abspath readonly_py_fname_presuffix
  : frame.
#[local] Hint Extern 2 (readonly (_ ≫= _)) =>
  apply readonly_bind; [|intros ?] : frame.

Lemma RigidTask_readonly : readonly RigidTask._list_outputs.
Proof. unfold RigidTask._list_outputs. auto 20 with frame. Qed.

Lemma AffineTask_readonly : readonly AffineTask._list_outputs.
Proof. unfold AffineTask._list_outputs. auto 20 with frame. Qed.

Lemma DiffeoTask_readonly : readonly DiffeoTask._list_outputs.
Proof. unfold DiffeoTask._list_outputs. auto 20 with frame. Qed.

Lemma ComposeXfmTask_readonly : readonly ComposeXfmTask._list_outputs.
Proof. unfold ComposeXfmTask._list_outputs. auto 20 with frame. Qed.

Lemma diffeoSymTensor3DVolTask_readonly :
  readonly diffeoSymTensor3DVolTask._list_outputs.
Proof. unfold diffeoSymTensor3DVolTask._list_outputs. auto 20 with frame. Qed.

Lemma affSymTensor3DVolTask_readonly (cwd : string) :
  readonly (affSymTensor3DVolTask._list_outputs cwd).
Proof. unfold affSymTensor3DVolTask._list_outputs. auto 20 with frame. Qed.

Lemma affScalarVolTask_readonly (cwd : string) :
  readonly (affScalarVolTask._list_outputs cwd).
Proof. unfold affScalarVolTask._list_outputs. auto 20 with frame. Qed.

(** The tail of [diffeoScalarVolTask._list_outputs], behind the guarded
    assignment. *)
Lemma diffeoScalarVolTask_tail_readonly (cwd : string) (o : outputs) :
  readonly
    (p ← getattr diffeoScalarVolTask.input_spec "out_path";
     out ← py_abspath cwd p;
     mret (<["out_file" := PyStr out]> o)).
Proof. auto 20 with frame. Qed.

Lemma diffeoScalarVolTask_assigns_only_out_path (cwd : string) :
  assigns_only "out_path" (diffeoScalarVolTask._list_outputs cwd).
Proof.
  unfold diffeoScalarVolTask._list_outputs.
  apply assigns_only_bind; [apply readonly_assigns_only; auto with frame|].
  intros p. apply assigns_only_bind.
  - destruct (negb (isdefined p)).
    + apply assigns_only_bind; [apply readonly_assigns_only; auto with frame|].
      intros v. apply assigns_only_bind;
        [apply readonly_assigns_only; auto with frame|].
      intros name. apply assigns_only_setattr.
    + apply readonly_assigns_only; auto with frame.
  - intros _. apply readonly_assigns_only, diffeoScalarVolTask_tail_readonly.
Qed.

Lemma diffeoScalarVolTask_defined_out_path (cwd p : string) (i : inputs) :
  i !! "out_path" = Some p ->
  diffeoScalarVolTask._list_outputs cwd i =
  (inr (<["out_file" := PyStr (posixpath.abspath cwd p)]>
          (get_traits diffeoScalarVolTask.output_spec)), i).
Proof.
  intros H. unfold diffeoScalarVolTask._list_outputs.
  read_input H. cbn [isdefined negb]. rewrite bind_run. cbn [mret M_ret].
  read_input H. by rewrite bind_run.
Qed.

(** Every task class but diffeoScalarVolTask has a read-only
    [_list_outputs]. *)
Lemma task_readonly (cwd : string) (t : task) :
  t <> diffeoScalarVol -> readonly (list_outputs cwd t).
Proof.
  intros Ht. destruct t; cbn [list_outputs]; try done.
  - apply RigidTask_readonly.
  - apply AffineTask_readonly.
  - apply DiffeoTask_readonly.
  - apply ComposeXfmTask_readonly.
  - apply diffeoSymTensor3DVolTask_readonly.
  - apply affSymTensor3DVolTask_readonly.
  - apply affScalarVolTask_readonly.
Qed.

(** C3, as stated, fails: a diffeoScalarVolTask with in_volume set and
    out_path undefined comes back from _list_outputs with out_path
    assigned. *)
Lemma diffeoScalarVolTask_list_outputs_assigns :
  let i : inputs := {["in_volume" := "fa.nii.gz"]} in
  let i' := (list_outputs "/data" diffeoScalarVol i).2 in
  i !! "out_path" = None /\
  i' !! "out_path" = Some "/data/fa_diffeoxfmd.nii.gz" /\
  i' <> i.
Proof.
  intros i i'. split; [done|]. split; [by vm_compute|].
  intros H. apply (f_equal (fun m : inputs => m !! "out_path")) in H.
  vm_compute in H. discriminate H.
Qed.

(** C3, amended: _list_outputs leaves the inputs unchanged for every task
    class other than diffeoScalarVolTask, and for diffeoScalarVolTask when
    out_path is defined; in every case no input other than out_path is
    changed. *)
Theorem list_outputs_frame (cwd : string) (t : task) (i : inputs) :
  ((t <> diffeoScalarVol \/ is_Some (i !! "out_path")) ->
   (list_outputs cwd t i).2 = i) /\
  (forall k : string,
     k <> "out_path" -> (list_outputs cwd t i).2 !! k = i !! k).
Proof.
  split.
  - intros H. destruct t;
      try (by apply (task_readonly cwd)); cbn [list_outputs].
    destruct H as [H|[p Hp]]; [done|].
    by rewrite (diffeoScalarVolTask_defined_out_path _ _ _ Hp).
  - intros k Hk. destruct (decide (t = diffeoScalarVol)) as [->|Ht].
    + by apply diffeoScalarVolTask_assigns_only_out_path.
    + by rewrite (task_readonly cwd t Ht i).
Qed.

Lemma list_outputs_frame_witness :
  (list_outputs "/data" diffeoScalarVol
     {["in_volume" := "fa.nii.gz"; "out_path" := "moved.nii.gz"]}).2
  = {["in_volume" := "fa.nii.gz"; "out_path" := "moved.nii.gz"]} /\
  (list_outputs "/data" diffeoScalarVol {["in_volume" := "fa.nii.gz"]}).2
    !! "in_volume" = Some "fa.nii.gz".
Proof.
  split.
  - apply (list_outputs_frame "/data" diffeoScalarVol). right. by eexists.
  - refine (proj2 (list_outputs_frame "/data" diffeoScalarVol
                     {["in_volume" := "fa.nii.gz"]}) "in_volume" _).
    done.
Defined.

(** C10: assigning a string to RigidTask's similarity_metric, or to
    AffineTask's in_similarity_metric, succeeds exactly when the string is
    one of 'EDS', 'GDS', 'DDS', 'NMI', and then stores it; any other string
    raises TraitError and leaves the inputs as they were. *)
Theorem similarity_metric_assignment (v : string) (i : inputs) :
  let metrics := ["EDS"; "GDS"; "DDS"; "NMI"] in
  let rigid := setattr RigidTask.input_spec "similarity_metric" v i in
  let affine := setattr AffineTask.input_spec "in_similarity_metric" v i in
  (rigid.1 = inr tt <-> v ∈ metrics) /\
  (v ∈ metrics -> rigid = (inr tt, <["similarity_metric" := v]> i)) /\
  (v ∉ metrics -> rigid = (inl TraitError, i)) /\
  (affine.1 = inr tt <-> v ∈ metrics) /\
  (v ∈ metrics -> affine = (inr tt, <["in_similarity_metric" := v]> i)) /\
  (v ∉ metrics -> affine = (inl TraitError, i)).
Proof.
  intros metrics rigid affine. subst rigid affine. unfold setattr.
  change (trait_of RigidTask.input_spec "similarity_metric")
    with (Some (mk_trait (Enum metrics) (Some "similarity metric") true true
                  (Some 2) (Some "%s") None None)).
  change (trait_of AffineTask.input_spec "in_similarity_metric")
    with (Some (mk_trait (Enum metrics) (Some "similarity metric") true false
                  (Some 3) (Some "%s") None None)).
  cbn [ttype validate].
  case_bool_decide as Hv; cbn [fst].
  - by repeat split.
  - repeat split; (done || by intros).
Qed.

Lemma similarity_metric_assignment_witness :
  setattr RigidTask.input_spec "similarity_metric" "NMI" ∅
  = (inr tt, {["similarity_metric" := "NMI"]}) /\
  setattr AffineTask.input_spec "in_similarity_metric" "nmi"
    {["in_fixed_tensor" := "diffusion.nii"]}
  = (inl TraitError, {["in_fixed_tensor" := "diffusion.nii"]}).
Proof.
  split.
  - apply (similarity_metric_assignment "NMI" ∅).
    apply (bool_decide_unpack _). by vm_compute.
  - apply (similarity_metric_assignment "nmi").
    apply (bool_decide_unpack _). by vm_compute.
Defined.

(** ** Tasks that name their output by [out_path] *)

Lemma getattr_undefined (sp : spec) (name : string) (t : trait) (i : inputs) :
  i !! name = None -> trait_of sp name = Some t ->
  getattr sp name i = (inr Undefined, i).
Proof. intros H1 H2. unfold getattr. by rewrite H1, H2. Qed.

Lemma diffeoSymTensor3DVolTask_defined_out_path (p : string) (i : inputs) :
  i !! "out_path" = Some p ->
  diffeoSymTensor3DVolTask._list_outputs i =
  (inr (<["out_file" := PyStr p]>
          (get_traits diffeoSymTensor3DVolTask.output_spec)), i).
Proof.
  intros H. unfold diffeoSymTensor3DVolTask._list_outputs.
  read_input H. done.
Qed.

Lemma affSymTensor3DVolTask_defined_out_path (cwd p : string) (i : inputs) :
  i !! "out_path" = Some p ->
  affSymTensor3DVolTask._list_outputs cwd i =
  (inr (<["out_file" := PyStr (posixpath.abspath cwd p)]>
          (get_traits affSymTensor3DVolTask.output_spec)), i).
Proof.
  intros H. unfold affSymTensor3DVolTask._list_outputs.
  read_input H. by rewrite bind_run.
Qed.

Lemma affScalarVolTask_defined_out_path (cwd p : string) (i : inputs) :
  i !! "out_path" = Some p ->
  affScalarVolTask._list_outputs cwd i =
  (inr (<["out_file" := PyStr (posixpath.abspath cwd p)]>
          (get_traits affScalarVolTask.output_spec)), i).
Proof.
  intros H. unfold affScalarVolTask._list_outputs.
  read_input H. by rewrite bind_run.
Qed.




(** *** diffeoScalarVolTask *)

Lemma diffeoScalarVolTask_undefined_out_path (cwd v : string) (i : inputs) :
  i !! "in_volume" = Some v ->
  i !! "out_path" = None ->
  let name :=
    filemanip.fname_presuffix cwd v "" "_diffeoxfmd"
      (Some (posixpath.abspath cwd ".")) in
  diffeoScalarVolTask._list_outputs cwd i =
  (inr (<["out_file" := PyStr (posixpath.abspath cwd name)]>
          (get_traits diffeoScalarVolTask.output_spec)),
   <["out_path" := name]> i).
Proof.
  intros Hv Hp name. unfold diffeoScalarVolTask._list_outputs.
  rewrite bind_run.
  rewrite (getattr_undefined _ _
             (mk_trait Str (Some "") false false (Some 1) (Some "-out %s")
                (Some "in_volume") (Some "%s_diffeoxfmd.nii.gz")) _ Hp)
    by done.
  cbn [isdefined negb]. rewrite bind_run.
  read_input Hv. cbn [py_fname_presuffix]. rewrite !bind_run.
  cbn [mret M_ret]. fold name.
  assert (Hset : setattr diffeoScalarVolTask.input_spec "out_path" name i
                 = (inr tt, <["out_path" := name]> i)) by done.
  rewrite Hset, bind_run.
  rewrite (getattr_assigned _ "out_path" name) by apply lookup_insert_eq.
  done.
Qed.

Lemma take_drop (n : nat) (s : string) : str.take n s +:+ str.drop n s = s.
Proof.
  revert s. induction n as [|n IH]; intros [|c s]; try done.
  simpl. by rewrite IH.
Qed.

Lemma splitext_app (p : string) :
  (posixpath.splitext p).1 +:+ (posixpath.splitext p).2 = p.
Proof.
  unfold posixpath.splitext. case_match; simpl.
  - apply take_drop.
  - apply str_facts.app_nil_r.
Qed.

(** [split_filename] cuts the base name in two. *)
Lemma split_filename_basename (path pth stem ext : string) :
  filemanip.split_filename path = (pth, stem, ext) ->
  stem +:+ ext = posixpath.basename path.
Proof.
  unfold filemanip.split_filename.
  destruct (filemanip.split_special (posixpath.basename path) _)
    as [[stem' ext']|] eqn:E.
  - intros [= _ <- <-]. revert E.
    generalize filemanip.special_extensions.
    intros exts. induction exts as [|e exts IH]; [done|].
    cbn [filemanip.split_special]. case_match; [|done].
    intros [= <- <-]. apply take_drop.
  - assert (H := splitext_app (posixpath.basename path)).
    destruct (posixpath.splitext (posixpath.basename path)) as [a b].
    by intros [= _ <- <-].
Qed.

Lemma abspath_is_rooted (cwd path : string) :
  posixpath.isabs cwd = true ->
  exists (k : nat) (comps : list string),
    (k = 1%nat \/ k = 2%nat) /\
    Forall (fun c => is_name c = true) comps /\
    posixpath.abspath cwd path = rooted k comps.
Proof.
  intros Hcwd. unfold posixpath.abspath.
  apply normal_form.normpath_is_rooted.
  destruct (posixpath.isabs path) eqn:Hp; [done|].
  by apply posixpath_facts.join_isabs.
Qed.

Lemma rooted_isabs (k : nat) (comps : list string) :
  k = 1%nat \/ k = 2%nat -> posixpath.isabs (rooted k comps) = true.
Proof. by intros [-> | ->]. Qed.

Lemma abspath_rooted (cwd : string) (k : nat) (comps : list string) :
  k = 1%nat \/ k = 2%nat ->
  Forall (fun c => is_name c = true) comps ->
  posixpath.abspath cwd (rooted k comps) = rooted k comps.
Proof.
  intros Hk Hcomps. unfold posixpath.abspath.
  rewrite (rooted_isabs k comps Hk).
  by apply normal_form.normpath_rooted.
Qed.

(** The name [fname_presuffix] builds in the working directory is already
    absolute and normal. *)
Lemma fname_presuffix_in_cwd (cwd v pth stem ext : string) :
  posixpath.isabs cwd = true ->
  filemanip.split_filename v = (pth, stem, ext) ->
  let name :=
    posixpath.join (posixpath.abspath cwd ".")
      (stem +:+ "_diffeoxfmd" +:+ ext) in
  filemanip.fname_presuffix cwd v "" "_diffeoxfmd"
    (Some (posixpath.abspath cwd ".")) = name /\
  posixpath.abspath cwd name = name /\
  posixpath.isabs name = true.
Proof.
  intros Hcwd Hsplit name. subst name.
  destruct (abspath_is_rooted cwd "." Hcwd) as (k & comps & Hk & Hcomps & HN).
  destruct (join_facts.split_filename_no_sep _ _ _ _ Hsplit) as [Hstem Hext].
  assert (Hname : is_name ("" +:+ stem +:+ "_diffeoxfmd" +:+ ext) = true).
  { apply join_facts.presuffix_is_name; try done. simpl. lia. }
  unfold filemanip.fname_presuffix. rewrite Hsplit, HN.
  rewrite (normal_form.rooted_not_empty k comps Hk).
  rewrite (abspath_rooted cwd k comps Hk Hcomps).
  change ("" +:+ stem +:+ "_diffeoxfmd" +:+ ext)
    with (stem +:+ "_diffeoxfmd" +:+ ext) in *.
  rewrite (join_facts.join_rooted k comps _ Hk Hcomps Hname).
  assert (Hcomps' : Forall (fun c => is_name c = true)
                      (comps ++ [stem +:+ "_diffeoxfmd" +:+ ext])).
  { apply Forall_app. split; [done | by repeat constructor]. }
  split; [done|]. split.
  - by apply abspath_rooted.
  - by apply rooted_isabs.
Qed.


(** * Further properties of the task classes *)

(** ** Undefined inputs *)

(** Reading a declared input that was never assigned gives [Undefined],
    and a string method on it raises. *)
Lemma replace_of_undefined {A : Type} (sp : spec) (name old new : string)
    (t : trait) (k : string -> M A) (i : inputs) :
  i !! name = None -> trait_of sp name = Some t ->
  (v ← getattr sp name; x ← py_replace v old new; k x) i
  = (inl AttributeError, i).
Proof.
  intros Hi Ht. by rewrite bind_run, (getattr_undefined _ _ _ _ Hi Ht).
Qed.

Lemma AffineTask_list_outputs_undefined (i : inputs) :
  i !! "in_fixed_tensor" = None ->
  AffineTask._list_outputs i = (inl AttributeError, i).
Proof.
  intros H. unfold AffineTask._list_outputs. by eapply replace_of_undefined.
Qed.

Lemma DiffeoTask_list_outputs_undefined (i : inputs) :
  i !! "in_fixed_tensor" = None ->
  DiffeoTask._list_outputs i = (inl AttributeError, i).
Proof.
  intros H. unfold DiffeoTask._list_outputs. by eapply replace_of_undefined.
Qed.

Lemma ComposeXfmTask_list_outputs_undefined (i : inputs) :
  i !! "in_df" = None ->
  ComposeXfmTask._list_outputs i = (inl AttributeError, i).
Proof.
  intros H. unfold ComposeXfmTask._list_outputs.
  by eapply replace_of_undefined.
Qed.

(** X1: in_fixed_tensor (of AffineTask and of DiffeoTask) and in_df are
    declared with mandatory=False, yet without them AffineTask, DiffeoTask
    and ComposeXfmTask cannot name their outputs: _list_outputs raises
    AttributeError and leaves the inputs as they are. *)
Theorem replace_tasks_need_their_input (i : inputs) :
  (mandatory <$> trait_of AffineTask.input_spec "in_fixed_tensor")
  = Some false /\
  (mandatory <$> trait_of DiffeoTask.input_spec "in_fixed_tensor")
  = Some false /\
  (mandatory <$> trait_of ComposeXfmTask.input_spec "in_df") = Some false /\
  (i !! "in_fixed_tensor" = None ->
   AffineTask._list_outputs i = (inl AttributeError, i) /\
   DiffeoTask._list_outputs i = (inl AttributeError, i)) /\
  (i !! "in_df" = None ->
   ComposeXfmTask._list_outputs i = (inl AttributeError, i)).
Proof.
  do 3 (split; [done|]). split.
  - intros H. split.
    + by apply AffineTask_list_outputs_undefined.
    + by apply DiffeoTask_list_outputs_undefined.
  - apply ComposeXfmTask_list_outputs_undefined.
Qed.

Lemma replace_tasks_need_their_input_witness :
  AffineTask._list_outputs {["in_moving_txt" := "dirs.txt"]}
  = (inl AttributeError, {["in_moving_txt" := "dirs.txt"]}) /\
  ComposeXfmTask._list_outputs {["in_aff" := "ants_Affine.txt"]}
  = (inl AttributeError, {["in_aff" := "ants_Affine.txt"]}).
Proof.
  split.
  - exact (proj1 (proj1 (proj2 (proj2 (proj2
             (replace_tasks_need_their_input
                {["in_moving_txt" := "dirs.txt"]})))) eq_refl)).
  - exact (proj2 (proj2 (proj2 (proj2
             (replace_tasks_need_their_input
                {["in_aff" := "ants_Affine.txt"]})))) eq_refl).
Defined.

Lemma diffeoSymTensor3DVolTask_undefined_out_path (i : inputs) :
  i !! "out_path" = None ->
  diffeoSymTensor3DVolTask._list_outputs i =
  (inr (<["out_file" := Undefined]>
          (get_traits diffeoSymTensor3DVolTask.output_spec)), i).
Proof.
  intros H. unfold diffeoSymTensor3DVolTask._list_outputs.
  rewrite bind_run.
  by rewrite (getattr_undefined _ _
             (mk_trait Str (Some "") true false (Some 3) (Some "-out %s")
                (Some "in_tensor") (Some "%s_diffeoxfmd.nii.gz")) _ H).
Qed.

Lemma affSymTensor3DVolTask_undefined_out_path (cwd : string) (i : inputs) :
  i !! "out_path" = None ->
  affSymTensor3DVolTask._list_outputs cwd i = (inl AttributeError, i).
Proof.
  intros H. unfold affSymTensor3DVolTask._list_outputs. rewrite bind_run.
  by rewrite (getattr_undefined _ _
             (mk_trait Str (Some "") true false (Some 3) (Some "-out %s")
                (Some "in_tensor") (Some "%s_affxfmd.nii.gz")) _ H).
Qed.

Lemma affScalarVolTask_undefined_out_path (cwd : string) (i : inputs) :
  i !! "out_path" = None ->
  affScalarVolTask._list_outputs cwd i = (inl AttributeError, i).
Proof.
  intros H. unfold affScalarVolTask._list_outputs. rewrite bind_run.
  by rewrite (getattr_undefined _ _
             (mk_trait Str (Some "") false false (Some 3) (Some "-out %s")
                (Some "in_volume") (Some "%s_affxfmd.nii.gz")) _ H).
Qed.

(** X4: with out_path undefined, diffeoSymTensor3DVolTask returns an
    outputs dictionary whose out_file is Undefined and raises nothing,
    while affSymTensor3DVolTask and affScalarVolTask raise; none of them
    changes the inputs. *)
Theorem undefined_out_path (cwd : string) (i : inputs) :
  i !! "out_path" = None ->
  (exists out : outputs,
     diffeoSymTensor3DVolTask._list_outputs i = (inr out, i) /\
     out !! "out_file" = Some Undefined) /\
  affSymTensor3DVolTask._list_outputs cwd i = (inl AttributeError, i) /\
  affScalarVolTask._list_outputs cwd i = (inl AttributeError, i).
Proof.
  intros H. split; [|split].
  - eexists. split; [by apply diffeoSymTensor3DVolTask_undefined_out_path|].
    by rewrite lookup_insert_eq.
  - by apply affSymTensor3DVolTask_undefined_out_path.
  - by apply affScalarVolTask_undefined_out_path.
Qed.

Lemma undefined_out_path_witness :
  (exists out : outputs,
     diffeoSymTensor3DVolTask._list_outputs {["in_xfm" := "ants_Warp.nii.gz"]}
     = (inr out, {["in_xfm" := "ants_Warp.nii.gz"]}) /\
     out !! "out_file" = Some Undefined) /\
  affSymTensor3DVolTask._list_outputs "/work" {["in_xfm" := "ants_Warp.nii.gz"]}
  = (inl AttributeError, {["in_xfm" := "ants_Warp.nii.gz"]}) /\
  affScalarVolTask._list_outputs "/work" {["in_xfm" := "ants_Warp.nii.gz"]}
  = (inl AttributeError, {["in_xfm" := "ants_Warp.nii.gz"]}).
Proof.
  apply (undefined_out_path "/work" {["in_xfm" := "ants_Warp.nii.gz"]}).
  reflexivity.
Defined.

Lemma diffeoScalarVolTask_without_in_volume (cwd : string) (i : inputs) :
  i !! "out_path" = None ->
  i !! "in_volume" = None ->
  diffeoScalarVolTask._list_outputs cwd i = (inl AttributeError, i).
Proof.
  intros Hp Hv. unfold diffeoScalarVolTask._list_outputs.
  rewrite bind_run.
  rewrite (getattr_undefined _ _
             (mk_trait Str (Some "") false false (Some 1) (Some "-out %s")
                (Some "in_volume") (Some "%s_diffeoxfmd.nii.gz")) _ Hp)
    by done.
  cbn [isdefined negb]. rewrite !bind_run.
  by rewrite (getattr_undefined _ _
             (mk_trait Str (Some "moving volume") true false (Some 0)
                (Some "-in %s") None None) _ Hv).
Qed.

(** X5: a diffeoScalarVolTask with neither out_path nor in_volume raises,
    and the guarded assignment has not happened: the inputs are as they
    were. *)
Theorem diffeoScalarVolTask_needs_in_volume (cwd : string) (i : inputs) :
  i !! "out_path" = None ->
  i !! "in_volume" = None ->
  diffeoScalarVolTask._list_outputs cwd i = (inl AttributeError, i).
Proof. apply diffeoScalarVolTask_without_in_volume. Qed.

(** Of the two assignments of the class docstring only [in_xfm] names a
    trait of [diffeoScalarVolInputSpec]; [in_volume] stays undefined. *)
Lemma diffeoScalarVolTask_needs_in_volume_witness :
  diffeoScalarVolTask._list_outputs "/work" {["in_xfm" := "ants_Warp.nii.gz"]}
  = (inl AttributeError, {["in_xfm" := "ants_Warp.nii.gz"]}).
Proof.
  by apply (diffeoScalarVolTask_needs_in_volume "/work").
Defined.

(** ** ComposeXfmTask *)

Module compose_facts.
Import str str_facts.

(** ['.df.nii.gz'] has no proper border either. *)
Lemma df_nii_gz_no_straddle (a b : string) :
  startswith (a +:+ ".df.nii.gz" +:+ b) ".df.nii.gz" = true ->
  a = "" \/ startswith a ".df.nii.gz" = true.
Proof.
  intros H.
  destruct a as [|c a]; [by left | right].
  peel H. simpl. rewrite ?Ascii.eqb_refl. simpl.
  do 9 (destruct a as [|c a];
        [ exfalso; repeat peel H
        | peel H; simpl; rewrite ?Ascii.eqb_refl; simpl ]).
  by destruct a.
Qed.

Lemma replace_scan_df_nii_gz (new a b : string) :
  contains a ".df.nii.gz" = false ->
  replace_scan ".df.nii.gz" new 0 (a +:+ ".df.nii.gz" +:+ b)
  = a +:+ new +:+ replace_scan ".df.nii.gz" new 0 b.
Proof.
  induction a as [|c a IH]; intros Ha.
  - change ("" +:+ ?x) with x. by apply replace_scan_match.
  - apply contains_cons in Ha as [Hhd Htl].
    change (String c a +:+ ?x) with (String c (a +:+ x)).
    cbn [replace_scan].
    destruct (startswith (String c (a +:+ ".df.nii.gz" +:+ b)) ".df.nii.gz")
      eqn:E.
    + apply (df_nii_gz_no_straddle (String c a) b) in E as [E|E]; congruence.
    + by rewrite IH.
Qed.

Lemma replace_df_nii_gz_suffix (base new : string) :
  contains base ".df.nii.gz" = false ->
  replace (base +:+ ".df.nii.gz") ".df.nii.gz" new = base +:+ new.
Proof.
  intros H. unfold replace.
  rewrite <- (app_nil_r (base +:+ ".df.nii.gz")), app_assoc.
  rewrite replace_scan_df_nii_gz by done.
  by rewrite app_nil_r.
Qed.

End compose_facts.

(** X2: for a ComposeXfmTask whose in_df is base + '.df.nii.gz' with no
    '.df.nii.gz' inside base, _list_outputs returns
    out_file = base + '_combo.df.nii.gz' and leaves the inputs as they
    are. *)
Theorem ComposeXfmTask_out_file_of_df (base : string) (i : inputs) :
  str.contains base ".df.nii.gz" = false ->
  i !! "in_df" = Some (base +:+ ".df.nii.gz") ->
  exists out : outputs,
    ComposeXfmTask._list_outputs i = (inr out, i) /\
    out !! "out_file" = Some (PyStr (base +:+ "_combo.df.nii.gz")).
Proof.
  intros Hbase Hin. eexists. split.
  - by apply ComposeXfmTask_list_outputs_assigned.
  - by rewrite lookup_insert_eq, compose_facts.replace_df_nii_gz_suffix.
Qed.

Lemma ComposeXfmTask_out_file_of_df_witness :
  exists out : outputs,
    ComposeXfmTask._list_outputs {["in_df" := "mean_aff_diffeo.df.nii.gz"]}
    = (inr out, {["in_df" := "mean_aff_diffeo.df.nii.gz"]}) /\
    out !! "out_file" = Some (PyStr "mean_aff_diffeo_combo.df.nii.gz").
Proof.
  apply (ComposeXfmTask_out_file_of_df "mean_aff_diffeo"); reflexivity.
Defined.

(** X3: when in_df holds no '.df.nii.gz', as the 'ants_Warp.nii.gz' of the
    class docstring, ComposeXfmTask names its own input as out_file. *)
Theorem ComposeXfmTask_out_file_without_df (s : string) (i : inputs) :
  str.contains s ".df.nii.gz" = false ->
  i !! "in_df" = Some s ->
  exists out : outputs,
    ComposeXfmTask._list_outputs i = (inr out, i) /\
    out !! "out_file" = Some (PyStr s).
Proof.
  intros Hs Hin. eexists. split.
  - by apply ComposeXfmTask_list_outputs_assigned.
  - by rewrite lookup_insert_eq, str_facts.replace_absent.
Qed.

Lemma ComposeXfmTask_out_file_without_df_witness :
  exists out : outputs,
    ComposeXfmTask._list_outputs
      {["in_df" := "ants_Warp.nii.gz"; "in_aff" := "ants_Affine.txt"]}
    = (inr out,
       {["in_df" := "ants_Warp.nii.gz"; "in_aff" := "ants_Affine.txt"]}) /\
    out !! "out_file" = Some (PyStr "ants_Warp.nii.gz").
Proof.
  apply (ComposeXfmTask_out_file_without_df "ants_Warp.nii.gz"); reflexivity.
Defined.

(** ** What every task class has in common *)

Lemma getattr_cases (sp : spec) (name : string) (i : inputs) :
  (exists v, getattr sp name i = (inr v, i)) \/
  getattr sp name i = (inl AttributeError, i).
Proof. unfold getattr. repeat case_match; eauto. Qed.

(** A task that reads one input and writes [out_file] from it. *)
Lemma dom_one_output (x : pyval) (sp : spec) :
  "out_file" ∈ dom (get_traits sp) ->
  dom (<["out_file" := x]> (get_traits sp)) = dom (get_traits sp).
Proof.
  intros H. rewrite dom_insert_L.
  by apply subseteq_union_1_L, singleton_subseteq_l.
Qed.

Lemma dom_two_outputs (x y : pyval) (sp : spec) :
  "out_file" ∈ dom (get_traits sp) ->
  "out_file_xfm" ∈ dom (get_traits sp) ->
  dom (<["out_file" := x]> (<["out_file_xfm" := y]> (get_traits sp)))
  = dom (get_traits sp).
Proof.
  intros H1 H2. rewrite !dom_insert_L.
  rewrite (subseteq_union_1_L {["out_file_xfm"]})
    by by apply singleton_subseteq_l.
  by apply subseteq_union_1_L, singleton_subseteq_l.
Qed.

Lemma dom_get_traits (sp : spec) :
  dom (get_traits sp) = list_to_set (map fst sp).
Proof.
  unfold get_traits. induction sp as [|[n t] sp IH]; [done|].
  simpl. by rewrite dom_insert_L, IH.
Qed.

(** Peel the statements of a method body, by cases on what each read
    returns. *)
Ltac run_body :=
  repeat first
    [ progress cbn [mret M_ret raise py_replace py_abspath
                    py_fname_presuffix isdefined negb fst snd]
    | rewrite bind_run
    | match goal with
      | |- context [setattr ?sp ?n ?v ?i] =>
          change (setattr sp n v i) with (inr tt : exn + unit, <[n := v]> i)
      end
    | match goal with
      | |- context [getattr ?sp ?name ?i] =>
          let v := fresh "v" in
          let E := fresh "E" in
          destruct (getattr_cases sp name i) as [[v E] | E];
          rewrite E; [destruct v|]
      end ].

(** X7: whenever a task's _list_outputs returns, the keys of the returned
    dictionary are exactly the traits of the class's output
    specification. *)
Theorem outputs_have_the_declared_keys (cwd : string) (t : task)
    (i : inputs) (out : outputs) :
  (list_outputs cwd t i).1 = inr out ->
  dom out = list_to_set (map fst (output_spec_of t)).
Proof.
  rewrite <- dom_get_traits.
  destruct t; cbn [list_outputs output_spec_of];
    [ unfold RigidTask._list_outputs
    | unfold AffineTask._list_outputs
    | unfold DiffeoTask._list_outputs
    | unfold ComposeXfmTask._list_outputs
    | unfold diffeoSymTensor3DVolTask._list_outputs
    | unfold affSymTensor3DVolTask._list_outputs
    | unfold affScalarVolTask._list_outputs
    | unfold diffeoScalarVolTask._list_outputs ];
    run_body; try done; intros [= <-];
    first [ by apply dom_two_outputs | by apply dom_one_output ].
Qed.

Lemma outputs_have_the_declared_keys_witness :
  dom (<["out_file" := PyStr "sub01_aff.nii.gz"]>
         (<["out_file_xfm" := PyStr "sub01.aff"]>
            (get_traits AffineTask.output_spec)))
  = list_to_set ["out_file"; "out_file_xfm"].
Proof.
  apply (outputs_have_the_declared_keys "/work" Affine
           {["in_fixed_tensor" := "sub01.nii.gz"]}).
  reflexivity.
Defined.

Lemma RigidTask_list_outputs_assigned (s : string) (i : inputs) :
  i !! "in_file" = Some s ->
  RigidTask._list_outputs i =
  (inr (<["out_file" := PyStr (str.replace s ".nii.gz" "_aff.nii.gz")]>
          (<["out_file_xfm" := PyStr (str.replace s ".nii.gz" ".aff")]>
             (get_traits RigidTask.output_spec))), i).
Proof.
  intros H. unfold RigidTask._list_outputs.
  read_input H. rewrite bind_run. cbn [mret M_ret].
  read_input H. by rewrite bind_run.
Qed.

(** Two input objects that agree on the attribute [name]: by cases on its
    value, with the result of the body in each case. *)
Ltac same_read H name on_some on_none :=
  let E := fresh "E" in
  assert (E := H name ltac:(by apply (bool_decide_unpack _)));
  match type of E with
  | ?i !! _ = ?i' !! _ =>
      let Ei := fresh "Ei" in
      destruct (i !! name) as [?s|] eqn:Ei; symmetry in E;
      [ by rewrite (on_some _ i Ei), (on_some _ i' E)
      | by rewrite (on_none i Ei), (on_none i' E) ]
  end.

(** X8: what a task's _list_outputs returns or raises is decided by the
    attributes its body reads: in_file for RigidTask (none of its declared
    inputs), in_fixed_tensor for AffineTask and DiffeoTask, in_df for
    ComposeXfmTask, out_path for the three tensor and scalar tasks, out_path
    and in_volume for diffeoScalarVolTask.  Input objects that agree there
    give the same result, whatever else they hold. *)
Theorem result_depends_on_reads_only (cwd : string) (t : task)
    (i i' : inputs) :
  (forall k : string, k ∈ reads t -> i !! k = i' !! k) ->
  (list_outputs cwd t i).1 = (list_outputs cwd t i').1.
Proof.
  intros H. destruct t; cbn [list_outputs reads] in *.
  - same_read H "in_file" RigidTask_list_outputs_assigned
      RigidTask_list_outputs_without_in_file.
  - same_read H "in_fixed_tensor" AffineTask_list_outputs_assigned
      AffineTask_list_outputs_undefined.
  - same_read H "in_fixed_tensor" DiffeoTask_list_outputs_assigned
      DiffeoTask_list_outputs_undefined.
  - same_read H "in_df" ComposeXfmTask_list_outputs_assigned
      ComposeXfmTask_list_outputs_undefined.
  - same_read H "out_path" diffeoSymTensor3DVolTask_defined_out_path
      diffeoSymTensor3DVolTask_undefined_out_path.
  - same_read H "out_path" (affSymTensor3DVolTask_defined_out_path cwd)
      (affSymTensor3DVolTask_undefined_out_path cwd).
  - same_read H "out_path" (affScalarVolTask_defined_out_path cwd)
      (affScalarVolTask_undefined_out_path cwd).
  - assert (Hp := H "out_path" ltac:(by apply (bool_decide_unpack _))).
    assert (Hv := H "in_volume" ltac:(by apply (bool_decide_unpack _))).
    destruct (i !! "out_path") as [p|] eqn:Ep.
    { by rewrite (diffeoScalarVolTask_defined_out_path cwd p i),
        (diffeoScalarVolTask_defined_out_path cwd p i'). }
    destruct (i !! "in_volume") as [v|] eqn:Ev.
    { by rewrite (diffeoScalarVolTask_undefined_out_path cwd v i),
        (diffeoScalarVolTask_undefined_out_path cwd v i'). }
    by rewrite (diffeoScalarVolTask_without_in_volume cwd i),
      (diffeoScalarVolTask_without_in_volume cwd i').
Qed.

Lemma result_depends_on_reads_only_witness :
  (list_outputs "/work" Rigid
     {["fixed_file" := "a.nii.gz"; "moving_file" := "b.nii.gz"]}).1
  = (list_outputs "/work" Rigid {["similarity_metric" := "NMI"]}).1.
Proof.
  apply (result_depends_on_reads_only "/work" Rigid).
  intros k ->%list_elem_of_singleton. reflexivity.
Defined.

(** ** Absolute and normal output paths *)

Lemma abspath_of_absolute (cwd path : string) :
  posixpath.isabs path = true ->
  posixpath.abspath cwd path = posixpath.normpath path.
Proof. intros H. unfold posixpath.abspath. by rewrite H. Qed.

(** With an absolute working directory, an absolute path that is
    its own [abspath] stays so under every working directory. *)
Lemma abspath_stable (cwd cwd' path : string) :
  posixpath.isabs cwd = true ->
  let f := posixpath.abspath cwd path in
  posixpath.isabs f = true /\ posixpath.abspath cwd' f = f.
Proof.
  intros Hcwd f. subst f.
  destruct (abspath_is_rooted cwd path Hcwd) as (k & comps & Hk & Hc & ->).
  split; [by apply rooted_isabs | by apply abspath_rooted].
Qed.

(** X10: with out_path defined and an absolute working directory,
    affSymTensor3DVolTask and affScalarVolTask return the same out_file,
    the absolute path of out_path; it is in normal form, that is one or
    two slashes followed by names with one slash between them, where a
    name is not empty, not '.', not '..' and holds no slash; so taking its
    absolute path again, under whatever working directory, gives it
    back. *)
Theorem aff_out_file_is_absolute_and_normal (cwd cwd' p : string)
    (i1 i2 : inputs) :
  posixpath.isabs cwd = true ->
  i1 !! "out_path" = Some p ->
  i2 !! "out_path" = Some p ->
  let f := posixpath.abspath cwd p in
  (exists o1 o2 : outputs,
     affSymTensor3DVolTask._list_outputs cwd i1 = (inr o1, i1) /\
     affScalarVolTask._list_outputs cwd i2 = (inr o2, i2) /\
     o1 !! "out_file" = Some (PyStr f) /\
     o2 !! "out_file" = Some (PyStr f)) /\
  posixpath.isabs f = true /\
  posixpath.abspath cwd' f = f /\
  exists (k : nat) (comps : list string),
    (k = 1%nat \/ k = 2%nat) /\
    Forall (fun c => is_name c = true) comps /\
    f = rooted k comps.
Proof.
  intros Hcwd H1 H2 f.
  destruct (abspath_stable cwd cwd' p Hcwd) as [Habs Hfix].
  split; [|split; [done|split; [done|]]].
  - do 2 eexists.
    split; [by apply affSymTensor3DVolTask_defined_out_path|].
    split; [by apply affScalarVolTask_defined_out_path|].
    by rewrite !lookup_insert_eq.
  - destruct (abspath_is_rooted cwd p Hcwd) as (k & comps & Hk & Hc & Hf).
    by exists k, comps.
Qed.

Lemma aff_out_file_is_absolute_and_normal_witness :
  (exists o1 o2 : outputs,
     affSymTensor3DVolTask._list_outputs "/work/sub01"
       {["out_path" := "../out/./t.nii.gz"]}
     = (inr o1, {["out_path" := "../out/./t.nii.gz"]}) /\
     affScalarVolTask._list_outputs "/work/sub01"
       {["out_path" := "../out/./t.nii.gz"]}
     = (inr o2, {["out_path" := "../out/./t.nii.gz"]}) /\
     o1 !! "out_file" = Some (PyStr "/work/out/t.nii.gz") /\
     o2 !! "out_file" = Some (PyStr "/work/out/t.nii.gz")) /\
  posixpath.isabs "/work/out/t.nii.gz" = true /\
  posixpath.abspath "tmp" "/work/out/t.nii.gz" = "/work/out/t.nii.gz" /\
  exists (k : nat) (comps : list string),
    (k = 1%nat \/ k = 2%nat) /\
    Forall (fun c => is_name c = true) comps /\
    "/work/out/t.nii.gz" = rooted k comps.
Proof.
  apply (aff_out_file_is_absolute_and_normal "/work/sub01" "tmp"
           "../out/./t.nii.gz"); reflexivity.
Defined.

(** X6: a second call changes nothing.  After a first _list_outputs with
    in_volume set, out_path undefined and an absolute working directory,
    diffeoScalarVolTask returns the same outputs again and leaves the
    inputs as the first call left them, also when the working directory
    has changed in between. *)
Theorem diffeoScalarVolTask_second_call (cwd cwd' v : string) (i : inputs) :
  posixpath.isabs cwd = true ->
  i !! "in_volume" = Some v ->
  i !! "out_path" = None ->
  exists (out : outputs) (i' : inputs),
    diffeoScalarVolTask._list_outputs cwd i = (inr out, i') /\
    diffeoScalarVolTask._list_outputs cwd' i' = (inr out, i').
Proof.
  intros Hcwd Hv Hp.
  destruct (filemanip.split_filename v) as [[pth stem] ext] eqn:Hsplit.
  destruct (fname_presuffix_in_cwd cwd v pth stem ext Hcwd Hsplit)
    as (Hname & Hfix & Habs).
  do 2 eexists. split.
  - by apply diffeoScalarVolTask_undefined_out_path.
  - rewrite (diffeoScalarVolTask_defined_out_path cwd' _ _
               (lookup_insert_eq i "out_path" _)).
    rewrite Hname, Hfix.
    rewrite (abspath_of_absolute cwd' _ Habs).
    by rewrite <- (abspath_of_absolute cwd _ Habs), Hfix.
Qed.

Lemma diffeoScalarVolTask_second_call_witness :
  exists (out : outputs) (i' : inputs),
    diffeoScalarVolTask._list_outputs "/work"
      {["in_volume" := "data/fa.nii.gz"]} = (inr out, i') /\
    diffeoScalarVolTask._list_outputs "/elsewhere" i' = (inr out, i').
Proof.
  apply (diffeoScalarVolTask_second_call "/work" "/elsewhere"
           "data/fa.nii.gz"); reflexivity.
Defined.

Lemma normpath_not_empty (path : string) :
  String.eqb (posixpath.normpath path) "" = false.
Proof.
  unfold posixpath.normpath.
  destruct (String.eqb path ""); [done|].
  match goal with
  | |- context [if String.eqb ?x "" then _ else _] =>
      by destruct (String.eqb x "") eqn:E
  end.
Qed.

(** With a directory given, [fname_presuffix] looks at the base name of
    its file only. *)
Lemma fname_presuffix_basename (cwd v v' suffix : string) :
  posixpath.basename v = posixpath.basename v' ->
  filemanip.fname_presuffix cwd v "" suffix (Some (posixpath.abspath cwd "."))
  = filemanip.fname_presuffix cwd v' "" suffix
      (Some (posixpath.abspath cwd ".")).
Proof.
  intros Hb. unfold filemanip.fname_presuffix, filemanip.split_filename.
  rewrite Hb.
  assert (He : String.eqb (posixpath.abspath cwd ".") "" = false)
    by apply normpath_not_empty.
  destruct (filemanip.split_special _ _) as [[stem ext]|].
  - by rewrite He.
  - destruct (posixpath.splitext _) as [stem ext]. by rewrite He.
Qed.

(** X11: the directory of in_volume plays no part.  Two diffeoScalarVolTasks
    without out_path whose in_volume have the same base name get the same
    outputs, and the same out_path is assigned to both. *)
Theorem diffeoScalarVolTask_ignores_directory (cwd v v' : string)
    (i i' : inputs) :
  posixpath.basename v = posixpath.basename v' ->
  i !! "in_volume" = Some v -> i !! "out_path" = None ->
  i' !! "in_volume" = Some v' -> i' !! "out_path" = None ->
  (diffeoScalarVolTask._list_outputs cwd i).1
  = (diffeoScalarVolTask._list_outputs cwd i').1 /\
  (diffeoScalarVolTask._list_outputs cwd i).2 !! "out_path"
  = (diffeoScalarVolTask._list_outputs cwd i').2 !! "out_path".
Proof.
  intros Hb Hv Hp Hv' Hp'.
  rewrite (diffeoScalarVolTask_undefined_out_path cwd v i Hv Hp).
  rewrite (diffeoScalarVolTask_undefined_out_path cwd v' i' Hv' Hp').
  cbv zeta. cbn [fst snd].
  rewrite (fname_presuffix_basename cwd v v' "_diffeoxfmd" Hb).
  by rewrite !lookup_insert_eq.
Qed.

Lemma diffeoScalarVolTask_ignores_directory_witness :
  (diffeoScalarVolTask._list_outputs "/work"
     {["in_volume" := "sub01/dti/fa.nii.gz"]}).1
  = (diffeoScalarVolTask._list_outputs "/work"
       {["in_volume" := "/data/fa.nii.gz"]}).1 /\
  (diffeoScalarVolTask._list_outputs "/work"
     {["in_volume" := "sub01/dti/fa.nii.gz"]}).2 !! "out_path"
  = (diffeoScalarVolTask._list_outputs "/work"
       {["in_volume" := "/data/fa.nii.gz"]}).2 !! "out_path".
Proof.
  apply (diffeoScalarVolTask_ignores_directory "/work"
           "sub01/dti/fa.nii.gz" "/data/fa.nii.gz"); reflexivity.
Defined.

(** ** Output names against the input name *)

Module length_facts.
Import str str_facts.

Lemma length_drop (n : nat) (s : string) :
  String.length (drop n s) = (String.length s - n)%nat.
Proof.
  revert s. induction n as [|n IH]; intros [|c s]; simpl; try done.
Qed.

Lemma startswith_length (s pre : string) :
  startswith s pre = true -> (String.length pre <= String.length s)%nat.
Proof.
  revert s. induction pre as [|a pre IH]; intros s; simpl; [lia|].
  destruct s as [|b s]; [done|]. intros [_ H]%andb_prop.
  apply IH in H. simpl. lia.
Qed.

(** Every match trades the length of [old] for the length of [new]. *)
Lemma length_replace_scan (old new : string) (skip : nat) (s : string) :
  old <> "" ->
  (String.length (replace_scan old new skip s)
   + count_scan old skip s * String.length old
   = String.length (drop skip s)
     + count_scan old skip s * String.length new)%nat.
Proof.
  intros Hold. revert skip.
  induction s as [|c s IH]; intros skip; [by destruct skip|].
  destruct skip as [|k]; [|apply IH].
  cbn [replace_scan count_scan drop].
  destruct (startswith (String c s) old) eqn:E;
    [|specialize (IH 0%nat); simpl in *; lia].
  apply startswith_length in E. simpl in E.
  specialize (IH (String.length old - 1)%nat).
  rewrite length_drop in IH. rewrite length_app. simpl.
  destruct old as [|a old]; [done|]. simpl in *. lia.
Qed.

Lemma count_of_contains (old s : string) :
  old <> "" -> contains s old = true -> (1 <= count_scan old 0 s)%nat.
Proof.
  intros Hold. induction s as [|c s IH].
  - by destruct old.
  - cbn [contains count_scan]. intros [H|H]%orb_prop.
    + rewrite H. lia.
    + destruct (startswith (String c s) old); [lia | by apply IH].
Qed.

Lemma length_replace (s old new : string) :
  old <> "" ->
  (String.length (replace s old new) + count_scan old 0 s * String.length old
   = String.length s + count_scan old 0 s * String.length new)%nat.
Proof.
  intros Hold. destruct old as [|a old]; [done|].
  apply (length_replace_scan (String a old) new 0 s Hold).
Qed.

End length_facts.

(** The lengths of what AffineTask and DiffeoTask put for ['.nii.gz']. *)
Lemma length_registration_names (s : string) :
  let n := count_scan ".nii.gz" 0 s in
  (String.length (str.replace s ".nii.gz" ".aff") + 3 * n
   = String.length s)%nat /\
  (String.length (str.replace s ".nii.gz" "_aff.nii.gz")
   = String.length s + 4 * n)%nat /\
  (String.length (str.replace s ".nii.gz" "_aff_diffeo.nii.gz")
   = String.length s + 11 * n)%nat /\
  (String.length (str.replace s ".nii.gz" "_aff_diffeo.df.nii.gz")
   = String.length s + 14 * n)%nat.
Proof.
  intros n.
  assert (H1 := length_facts.length_replace s ".nii.gz" ".aff").
  assert (H2 := length_facts.length_replace s ".nii.gz" "_aff.nii.gz").
  assert (H3 := length_facts.length_replace s ".nii.gz" "_aff_diffeo.nii.gz").
  assert (H4 := length_facts.length_replace s ".nii.gz"
                  "_aff_diffeo.df.nii.gz").
  fold n in H1, H2, H3, H4. simpl String.length in *.
  specialize (H1 ltac:(done)). specialize (H2 ltac:(done)).
  specialize (H3 ltac:(done)). specialize (H4 ltac:(done)).
  lia.
Qed.

(** X9: when in_fixed_tensor holds '.nii.gz', no predicted name is the
    input file and no two predicted names coincide: AffineTask's
    out_file_xfm is shorter than in_fixed_tensor, which is shorter than
    AffineTask's out_file, DiffeoTask's out_file and DiffeoTask's
    out_file_xfm, in this order. *)
Theorem registration_names_are_apart (s : string) (i : inputs) :
  str.contains s ".nii.gz" = true ->
  i !! "in_fixed_tensor" = Some s ->
  exists (oa od : outputs) (a ax d dx : string),
    AffineTask._list_outputs i = (inr oa, i) /\
    oa !! "out_file" = Some (PyStr a) /\
    oa !! "out_file_xfm" = Some (PyStr ax) /\
    DiffeoTask._list_outputs i = (inr od, i) /\
    od !! "out_file" = Some (PyStr d) /\
    od !! "out_file_xfm" = Some (PyStr dx) /\
    (String.length ax < String.length s)%nat /\
    (String.length s < String.length a)%nat /\
    (String.length a < String.length d)%nat /\
    (String.length d < String.length dx)%nat.
Proof.
  intros Hs Hin.
  assert (Hn := length_facts.count_of_contains ".nii.gz" s ltac:(done) Hs).
  destruct (length_registration_names s) as (H1 & H2 & H3 & H4).
  do 6 eexists.
  split; [by apply AffineTask_list_outputs_assigned|].
  rewrite lookup_out_file, lookup_out_file_xfm.
  do 2 (split; [done|]).
  split; [by apply DiffeoTask_list_outputs_assigned|].
  rewrite lookup_out_file, lookup_out_file_xfm.
  do 2 (split; [done|]).
  cbv zeta in *. lia.
Qed.

Lemma registration_names_are_apart_witness :
  exists (oa od : outputs) (a ax d dx : string),
    AffineTask._list_outputs {["in_fixed_tensor" := "a.nii.gz/b.nii.gz"]}
    = (inr oa, {["in_fixed_tensor" := "a.nii.gz/b.nii.gz"]}) /\
    oa !! "out_file" = Some (PyStr a) /\
    oa !! "out_file_xfm" = Some (PyStr ax) /\
    DiffeoTask._list_outputs {["in_fixed_tensor" := "a.nii.gz/b.nii.gz"]}
    = (inr od, {["in_fixed_tensor" := "a.nii.gz/b.nii.gz"]}) /\
    od !! "out_file" = Some (PyStr d) /\
    od !! "out_file_xfm" = Some (PyStr dx) /\
    (String.length ax < String.length "a.nii.gz/b.nii.gz")%nat /\
    (String.length "a.nii.gz/b.nii.gz" < String.length a)%nat /\
    (String.length a < String.length d)%nat /\
    (String.length d < String.length dx)%nat.
Proof.
  apply (registration_names_are_apart "a.nii.gz/b.nii.gz"); reflexivity.
Defined.

(** ** The file name diffeoScalarVolTask builds *)

Module basename_facts.
Import posixpath posixpath_facts normpath_facts normal_form join_facts.

Lemma rfind_no_sep (n : string) : no_sep n = true -> str.rfind n sep = -1.
Proof.
  induction n as [|c n IH]; [done|].
  intros [Hc Hn]%no_sep_cons. cbn [str.rfind]. rewrite IH by done.
  by rewrite Hc.
Qed.

Lemma rfind_behind_sep (a n : string) :
  0 <= str.rfind (a +:+ String sep n) sep.
Proof.
  induction a as [|c a IH].
  - change ("" +:+ ?x) with x. cbn [str.rfind].
    assert (H := join_facts.rfind_lower_bound n sep).
    destruct (0 <=? str.rfind n sep) eqn:E; [lia|].
    by rewrite Ascii.eqb_refl.
  - change (String c a +:+ ?x) with (String c (a +:+ x)).
    cbn [str.rfind]. apply Z.leb_le in IH. rewrite IH. lia.
Qed.

(** The base name of a path that ends in a separator and a name is that
    name. *)
Lemma basename_app (a n : string) :
  no_sep n = true -> basename (a +:+ String sep n) = n.
Proof.
  intros Hn. unfold basename. induction a as [|c a IH].
  - change ("" +:+ ?x) with x. cbn [str.rfind].
    by rewrite (rfind_no_sep n Hn), Ascii.eqb_refl.
  - change (String c a +:+ ?x) with (String c (a +:+ x)).
    cbn [str.rfind].
    assert (H := rfind_behind_sep a n).
    destruct (0 <=? str.rfind (a +:+ String sep n) sep) eqn:E; [|lia].
    replace (Z.to_nat (str.rfind (a +:+ String sep n) sep + 1 + 1))
      with (S (Z.to_nat (str.rfind (a +:+ String sep n) sep + 1))) by lia.
    exact IH.
Qed.

Lemma basename_rooted (k : nat) (comps : list string) (n : string) :
  k = 1%nat \/ k = 2%nat ->
  is_name n = true ->
  basename (rooted k (comps ++ [n])) = n.
Proof.
  intros Hk Hn. apply is_name_no_sep in Hn. unfold rooted.
  destruct comps as [|c comps].
  - destruct Hk as [-> | ->].
    + by apply (basename_app "" n).
    + by apply (basename_app "/" n).
  - rewrite join_snoc by done.
    rewrite <- str_facts.app_assoc. by apply basename_app.
Qed.

End basename_facts.

Lemma format_suffix_template (suffix base : string) :
  format (String "%" (String "s" suffix)) base = base +:+ suffix.
Proof. reflexivity. Qed.


(** ** The declarations *)

(** X13: assigning a string to AffineTask's in_usetrans_flag succeeds
    exactly for '--useTrans' and for the empty string, and stores the
    value; any other string raises TraitError and leaves the inputs as
    they were. *)
Theorem usetrans_flag_assignment (v : string) (i : inputs) :
  let flags := ["--useTrans"; ""] in
  let r := setattr AffineTask.input_spec "in_usetrans_flag" v i in
  (r.1 = inr tt <-> v ∈ flags) /\
  (v ∈ flags -> r = (inr tt, <["in_usetrans_flag" := v]> i)) /\
  (v ∉ flags -> r = (inl TraitError, i)).
Proof.
  intros flags r. subst r. unfold setattr.
  change (trait_of AffineTask.input_spec "in_usetrans_flag")
    with (Some (mk_trait (Enum flags)
                  (Some "initialize using rigid transform??") true false
                  (Some 4) (Some "%s") None None)).
  cbn [ttype validate].
  case_bool_decide as Hv; cbn [fst].
  - by repeat split.
  - repeat split; (done || by intros).
Qed.

Lemma usetrans_flag_assignment_witness :
  setattr AffineTask.input_spec "in_usetrans_flag" "" ∅
  = (inr tt, {["in_usetrans_flag" := ""]}) /\
  setattr AffineTask.input_spec "in_usetrans_flag" "--usetrans" ∅
  = (inl TraitError, ∅).
Proof.
  split.
  - apply (usetrans_flag_assignment "" ∅).
    apply (bool_decide_unpack _). by vm_compute.
  - apply (usetrans_flag_assignment "--usetrans" ∅).
    apply (bool_decide_unpack _). by vm_compute.
Defined.

(** X15: among the traits the module declares in the input specification
    of a task class, no two share a name, no two of those that have a
    command-line position share it (a trait without a position, as the
    inherited ones are, does not count), and a name_source names a trait
    declared in the same specification. *)
Theorem input_specs_are_well_formed (t : task) :
  NoDup (map fst (input_spec_of t)) /\
  NoDup (omap (fun nt => position (snd nt)) (input_spec_of t)) /\
  Forall (fun nt =>
            forall src : string,
              name_source (snd nt) = Some src ->
              is_Some (trait_of (input_spec_of t) src))
    (input_spec_of t).
Proof.
  split; [|split].
  - apply (bool_decide_unpack _). by destruct t; vm_compute.
  - apply (bool_decide_unpack _). by destruct t; vm_compute.
  - destruct t; repeat constructor; cbn [snd name_source];
      intros src; try done; intros [= <-]; by eexists.
Qed.

(** ** DiffeoTask into ComposeXfmTask *)

Module pipeline_facts.
Import str str_facts.

(** A match of ['.df.nii.gz'] cannot reach into a following
    ['_aff_diffeo']. *)
Lemma startswith_before_aff_diffeo (a : string) :
  startswith (a +:+ "_aff_diffeo") ".df.nii.gz" = true ->
  startswith a ".df.nii.gz" = true.
Proof.
  intros H.
  do 10 (destruct a as [|c a];
         [ exfalso; repeat peel H
         | peel H; simpl; rewrite ?Ascii.eqb_refl; simpl ]).
  by destruct a.
Qed.

Lemma contains_before_aff_diffeo (a : string) :
  contains (a +:+ "_aff_diffeo") ".df.nii.gz" = true ->
  contains a ".df.nii.gz" = true.
Proof.
  induction a as [|c a IH]; [by vm_compute|].
  change (String c a +:+ ?x) with (String c (a +:+ x)).
  cbn [contains]. intros [H|H]%orb_prop.
  - apply (startswith_before_aff_diffeo (String c a)) in H. by rewrite H.
  - rewrite (IH H). apply orb_true_r.
Qed.

Lemma startswith_app_drop (s p q : string) :
  startswith s (p +:+ q) = true ->
  startswith (drop (String.length p) s) q = true.
Proof.
  revert s. induction p as [|a p IH]; intros s; [done|].
  change (String a p +:+ q) with (String a (p +:+ q)).
  destruct s as [|b s]; [done|]. cbn [startswith String.length drop].
  intros [_ H]%andb_prop. by apply IH.
Qed.

Lemma contains_of_startswith (s q : string) :
  startswith s q = true -> contains s q = true.
Proof. intros H. destruct s; cbn [contains]; by rewrite H. Qed.

Lemma contains_of_drop (n : nat) (s q : string) :
  contains (drop n s) q = true -> contains s q = true.
Proof.
  revert s. induction n as [|n IH]; intros s; [done|].
  destruct s as [|c s]; [done|]. cbn [drop contains].
  intros H. rewrite (IH _ H). apply orb_true_r.
Qed.

(** Where ['.df.nii.gz'] occurs, ['.nii.gz'] occurs three characters
    on. *)
Lemma contains_nii_gz_of_df (s : string) :
  contains s ".df.nii.gz" = true -> contains s ".nii.gz" = true.
Proof.
  induction s as [|c s IH]; [done|].
  cbn [contains]. intros [H|H]%orb_prop.
  - apply (startswith_app_drop _ ".df" ".nii.gz") in H.
    apply contains_of_startswith, contains_of_drop in H.
    exact H.
  - rewrite (IH H). apply orb_true_r.
Qed.

Lemma aff_diffeo_free_of_df (base : string) :
  contains base ".nii.gz" = false ->
  contains (base +:+ "_aff_diffeo") ".df.nii.gz" = false.
Proof.
  intros Hbase.
  destruct (contains (base +:+ "_aff_diffeo") ".df.nii.gz") eqn:E; [|done].
  apply contains_before_aff_diffeo, contains_nii_gz_of_df in E. congruence.
Qed.

End pipeline_facts.

(** X14: the transform DiffeoTask names can be handed to ComposeXfmTask.
    For in_fixed_tensor = base + '.nii.gz' with no '.nii.gz' inside base,
    DiffeoTask's out_file_xfm, given as in_df, makes ComposeXfmTask
    return out_file = base + '_aff_diffeo_combo.df.nii.gz'. *)
Theorem diffeo_then_compose (base : string) (i j : inputs) :
  str.contains base ".nii.gz" = false ->
  i !! "in_fixed_tensor" = Some (base +:+ ".nii.gz") ->
  exists (out : outputs) (xfm : string),
    DiffeoTask._list_outputs i = (inr out, i) /\
    out !! "out_file_xfm" = Some (PyStr xfm) /\
    (j !! "in_df" = Some xfm ->
     exists out' : outputs,
       ComposeXfmTask._list_outputs j = (inr out', j) /\
       out' !! "out_file"
       = Some (PyStr (base +:+ "_aff_diffeo_combo.df.nii.gz"))).
Proof.
  intros Hbase Hin. do 2 eexists.
  split; [by apply DiffeoTask_list_outputs_assigned|].
  rewrite lookup_out_file_xfm, replace_nii_gz_suffix by done.
  split; [done|]. intros Hj. eexists.
  split; [by apply ComposeXfmTask_list_outputs_assigned|].
  rewrite lookup_insert_eq.
  change "_aff_diffeo.df.nii.gz" with ("_aff_diffeo" +:+ ".df.nii.gz").
  rewrite <- str_facts.app_assoc.
  rewrite compose_facts.replace_df_nii_gz_suffix
    by by apply pipeline_facts.aff_diffeo_free_of_df.
  by rewrite str_facts.app_assoc.
Qed.

Lemma diffeo_then_compose_witness :
  exists (out : outputs) (xfm : string),
    DiffeoTask._list_outputs {["in_fixed_tensor" := "mean.nii.gz"]}
    = (inr out, {["in_fixed_tensor" := "mean.nii.gz"]}) /\
    out !! "out_file_xfm" = Some (PyStr xfm) /\
    (({["in_df" := "mean_aff_diffeo.df.nii.gz"]} : inputs) !! "in_df"
     = Some xfm ->
     exists out' : outputs,
       ComposeXfmTask._list_outputs {["in_df" := "mean_aff_diffeo.df.nii.gz"]}
       = (inr out', {["in_df" := "mean_aff_diffeo.df.nii.gz"]}) /\
       out' !! "out_file" = Some (PyStr "mean_aff_diffeo_combo.df.nii.gz")).
Proof.
  apply (diffeo_then_compose "mean"); reflexivity.
Defined.

(** ** The words about file names against the program *)

Module extension_facts.
Import posixpath normpath_facts.

Lemma occurs_here (c : ascii) (s : string) : occurs c (String c s).
Proof. by exists "", s. Qed.

Lemma occurs_later (c a : ascii) (s : string) :
  occurs c s -> occurs c (String a s).
Proof. intros (x & t & ->). by exists (String a x), t. Qed.

Lemma occurs_cons (c a : ascii) (s : string) :
  occurs c (String a s) -> a = c \/ occurs c s.
Proof.
  intros (x & t & H). destruct x as [|b x]; simpl in H.
  - left. by injection H.
  - right. injection H as _ ->. by exists x, t.
Qed.

Lemma occurs_nil (c : ascii) : ~ occurs c "".
Proof. intros (x & t & H). by destruct x. Qed.

Lemma occurs_app_r (c : ascii) (s t : string) :
  occurs c t -> occurs c (s +:+ t).
Proof.
  intros (x & u & ->). exists (s +:+ x), u.
  by rewrite str_facts.app_assoc.
Qed.

(** [occurs] against the test the program makes character by
    character. *)
Lemma all_other_of_not_occurs (c : ascii) (s : string) :
  ~ occurs c s -> str.all (fun a => negb (Ascii.eqb a c)) s = true.
Proof.
  induction s as [|a s IH]; [done|]. intros H. simpl.
  destruct (Ascii.eqb_spec a c) as [->|Hne].
  - destruct H. apply occurs_here.
  - simpl. apply IH. intros Hs. by apply H, occurs_later.
Qed.

Lemma not_occurs_of_all_other (c : ascii) (s : string) :
  str.all (fun a => negb (Ascii.eqb a c)) s = true -> ~ occurs c s.
Proof.
  induction s as [|a s IH]; [intros _; apply occurs_nil|].
  simpl. intros [Ha Hs]%andb_prop [->|H]%occurs_cons.
  - by rewrite Ascii.eqb_refl in Ha.
  - by apply IH.
Qed.

Lemma all_same_of_only (c : ascii) (s : string) :
  (forall a, occurs a s -> a = c) ->
  str.all (fun a => Ascii.eqb a c) s = true.
Proof.
  induction s as [|a s IH]; [done|]. intros H. simpl.
  rewrite (H a (occurs_here a s)), Ascii.eqb_refl. simpl.
  apply IH. intros b Hb. by apply H, occurs_later.
Qed.

Lemma not_all_same_of_other (c : ascii) (s : string) :
  (exists a, occurs a s /\ a <> c) ->
  str.all (fun a => Ascii.eqb a c) s = false.
Proof.
  intros (a & Ha & Hne). induction s as [|b s IH]; [by apply occurs_nil in Ha|].
  simpl. apply occurs_cons in Ha as [->|Ha].
  - by apply Ascii.eqb_neq in Hne as ->.
  - rewrite (IH Ha). apply andb_false_r.
Qed.

Lemma no_sep_of_not_occurs (b : string) : ~ occurs "/" b -> no_sep b = true.
Proof. apply all_other_of_not_occurs. Qed.

(** *** The base name *)

Lemma basename_no_directory (b : string) :
  no_sep b = true -> basename b = b.
Proof.
  intros H. unfold basename.
  by rewrite (basename_facts.rfind_no_sep b H).
Qed.

Lemma basename_of_directory_and_base (v dir b : string) :
  directory_and_base v dir b -> basename v = b.
Proof.
  intros (-> & Hb%no_sep_of_not_occurs & [-> | [d ->]]).
  - by apply basename_no_directory.
  - rewrite str_facts.app_assoc. by apply basename_facts.basename_app.
Qed.

End extension_facts.

Module special_facts.
Import extension_facts.

Lemma lower_ascii_upper (c d : ascii) :
  (65 <= nat_of_ascii c <= 90)%nat ->
  nat_of_ascii d = (nat_of_ascii c + 32)%nat ->
  str.lower_ascii c = d.
Proof.
  intros Hc Hd. unfold str.lower_ascii.
  replace (65 <=? nat_of_ascii c)%nat with true
    by (symmetry; apply Nat.leb_le; lia).
  replace (nat_of_ascii c <=? 90)%nat with true
    by (symmetry; apply Nat.leb_le; lia).
  simpl. by rewrite <- Hd, ascii_nat_embedding.
Qed.

(** What reads as a lower-case [y] is brought to [y] by [lower]. *)
Lemma lower_of_ignoring_case (x y : string) :
  ignoring_case x y -> str.lower y = y -> str.lower x = y.
Proof.
  induction 1 as [|c x y H IH|c d x y Hc Hd H IH]; [done|..];
    simpl; intros [= Hhd Htl].
  - by rewrite Hhd, (IH Htl).
  - by rewrite (lower_ascii_upper c d Hc Hd), (IH Htl).
Qed.

Lemma lower_ascii_cases (c : ascii) :
  str.lower_ascii c = c \/
  ((65 <= nat_of_ascii c <= 90)%nat /\
   nat_of_ascii (str.lower_ascii c) = (nat_of_ascii c + 32)%nat).
Proof.
  unfold str.lower_ascii.
  destruct (65 <=? nat_of_ascii c)%nat eqn:E1; [|by left].
  destruct (nat_of_ascii c <=? 90)%nat eqn:E2; [|by left].
  right. apply Nat.leb_le in E1, E2. split; [lia|].
  simpl. apply nat_ascii_embedding. lia.
Qed.

Lemma ignoring_case_of_lower (x : string) : ignoring_case x (str.lower x).
Proof.
  induction x as [|c x IH]; [constructor|]. simpl.
  destruct (lower_ascii_cases c) as [-> | [Hc Hd]].
  - by constructor.
  - by apply ignoring_case_upper.
Qed.

Lemma ignoring_case_length (x y : string) :
  ignoring_case x y -> String.length x = String.length y.
Proof. induction 1; simpl; congruence. Qed.

Lemma take_app (s t : string) : str.take (String.length s) (s +:+ t) = s.
Proof. induction s as [|c s IH]; [by destruct t | simpl; by rewrite IH]. Qed.

(** One round of [split_special] on a file name that ends in something
    of the length of the extension. *)
Lemma split_special_step (stem x special_ext : string)
    (exts : list string) :
  String.length x = String.length special_ext ->
  filemanip.split_special (stem +:+ x) (special_ext :: exts) =
  if negb (String.eqb stem "") &&
     String.eqb (str.lower x) (str.lower special_ext)
  then Some (stem, x)
  else filemanip.split_special (stem +:+ x) exts.
Proof.
  intros Hlen. cbn [filemanip.split_special].
  rewrite str_facts.length_app, <- Hlen.
  replace (String.length stem + String.length x - String.length x)%nat
    with (String.length stem) by lia.
  rewrite str_facts.drop_app, take_app.
  destruct stem as [|c stem]; simpl.
  - replace (String.length x <? String.length x)%nat with false; [done|].
    symmetry. apply Nat.ltb_ge. lia.
  - replace (String.length x <? S (String.length stem + String.length x))%nat
      with true; [done|].
    symmetry. apply Nat.ltb_lt. lia.
Qed.

Lemma split_special_of_special (stem x : string) :
  stem <> "" -> special_extension x ->
  filemanip.split_special (stem +:+ x) filemanip.special_extensions
  = Some (stem, x).
Proof.
  intros Hstem Hx. unfold filemanip.special_extensions.
  assert (Hne : negb (String.eqb stem "") = true).
  { apply negb_true_iff. by apply String.eqb_neq. }
  destruct Hx as [Hx|Hx];
    assert (Hlen := ignoring_case_length _ _ Hx);
    apply lower_of_ignoring_case in Hx; try done.
  - rewrite split_special_step by done. by rewrite Hne, Hx.
  - rewrite split_special_step by done. rewrite Hne, Hx.
    change (String.eqb ".tar.gz" (str.lower ".nii.gz")) with false.
    cbn [andb]. rewrite split_special_step by done. by rewrite Hne, Hx.
Qed.

Lemma take_drop_length (n : nat) (s : string) :
  (n <= String.length s)%nat ->
  String.length (str.drop (String.length s - n) s) = n.
Proof. intros H. rewrite length_facts.length_drop. lia. Qed.

Lemma split_special_none (b : string) :
  ~ has_special_extension b ->
  filemanip.split_special b filemanip.special_extensions = None.
Proof.
  intros Hb. unfold filemanip.special_extensions.
  assert (Hround : forall special_ext exts,
    special_extension special_ext ->
    str.lower special_ext = special_ext ->
    filemanip.split_special b (special_ext :: exts)
    = filemanip.split_special b exts).
  { intros special_ext exts Hs Hlow. cbn [filemanip.split_special].
    destruct (String.length special_ext <? String.length b)%nat eqn:Elen;
      [|done].
    apply Nat.ltb_lt in Elen.
    destruct (String.eqb _ _) eqn:E; [|done].
    apply String.eqb_eq in E. rewrite Hlow in E.
    destruct Hb.
    exists (str.take (String.length b - String.length special_ext) b),
      (str.drop (String.length b - String.length special_ext) b).
    split; [by rewrite take_drop|]. split.
    - intros Hnil. apply (f_equal String.length) in Hnil.
      assert (Hl := f_equal String.length
                 (take_drop (String.length b - String.length special_ext) b)).
      rewrite str_facts.length_app, Hnil, length_facts.length_drop in Hl.
      simpl in Hl. lia.
    - assert (Hi := ignoring_case_of_lower
                      (str.drop (String.length b - String.length special_ext) b)).
      rewrite E in Hi.
      destruct Hs as [Hs|Hs];
        apply lower_of_ignoring_case in Hs; try done;
        rewrite Hlow in Hs; subst special_ext; [by left | by right]. }
  rewrite Hround; [|left; repeat constructor|done].
  rewrite Hround; [done|right; repeat constructor|done].
Qed.

End special_facts.

Module splitext_facts.
Import posixpath normpath_facts extension_facts special_facts.

Lemma rfind_absent (c : ascii) (s : string) :
  ~ occurs c s -> str.rfind s c = -1.
Proof.
  induction s as [|a s IH]; [done|]. intros H. cbn [str.rfind].
  rewrite IH by (intros Hs; by apply H, occurs_later).
  destruct (Ascii.eqb_spec a c) as [->|Hne]; [|done].
  destruct H. apply occurs_here.
Qed.

(** The last place where [c] occurs. *)
Lemma rfind_last (c : ascii) (s e : string) :
  ~ occurs c e ->
  str.rfind (s +:+ String c e) c = Z.of_nat (String.length s).
Proof.
  intros He. induction s as [|a s IH].
  - change ("" +:+ ?x) with x. cbn [str.rfind].
    by rewrite (rfind_absent c e He), Ascii.eqb_refl.
  - change (String a s +:+ ?x) with (String a (s +:+ x)).
    cbn [str.rfind String.length]. rewrite IH.
    replace (0 <=? Z.of_nat (String.length s)) with true
      by (symmetry; apply Z.leb_le; lia).
    lia.
Qed.

(** Either [c] does not occur, or [s] splits at its last occurrence. *)
Lemma rfind_cases (c : ascii) (s : string) :
  (~ occurs c s /\ str.rfind s c = -1) \/
  (exists a e : string,
     s = a +:+ String c e /\ ~ occurs c e /\
     str.rfind s c = Z.of_nat (String.length a)).
Proof.
  induction s as [|b s IH].
  - left. split; [apply occurs_nil | done].
  - destruct IH as [[Hs Hr] | (a & e & -> & He & Hr)].
    + destruct (Ascii.eqb_spec b c) as [->|Hne].
      * right. exists "", s. split; [done|]. split; [done|].
        by apply (rfind_last c "" s).
      * left. split.
        -- by intros [?|?]%occurs_cons.
        -- cbn [str.rfind]. rewrite Hr.
           by apply Ascii.eqb_neq in Hne as ->.
    + right. exists (String b a), e. split; [done|]. split; [done|].
      by apply (rfind_last c (String b a) e).
Qed.

Lemma splitext_at (stem e : string) :
  no_sep (stem +:+ String "." e) = true ->
  ~ occurs "." e ->
  splitext (stem +:+ String "." e) =
  if str.all (fun c => Ascii.eqb c ".") stem
  then (stem +:+ String "." e, "")
  else (stem, String "." e).
Proof.
  intros Hb He. unfold splitext, extsep.
  rewrite (basename_facts.rfind_no_sep _ Hb), (rfind_last "." stem e He).
  replace (-1 <? Z.of_nat (String.length stem)) with true
    by (symmetry; apply Z.ltb_lt; lia).
  replace (Z.to_nat (Z.of_nat (String.length stem) - (-1 + 1)))
    with (String.length stem) by lia.
  replace (Z.to_nat (Z.of_nat (String.length stem)))
    with (String.length stem) by lia.
  change (Z.to_nat (-1 + 1)) with 0%nat. cbn [str.drop].
  rewrite take_app, str_facts.drop_app.
  by destruct (str.all _ stem).
Qed.

Lemma splitext_no_dot (b : string) :
  ~ occurs "." b -> splitext b = (b, "").
Proof.
  intros Hb. unfold splitext, extsep. rewrite (rfind_absent "." b Hb).
  assert (H := join_facts.rfind_lower_bound b sep).
  replace (str.rfind b sep <? -1) with false
    by (symmetry; apply Z.ltb_ge; lia).
  done.
Qed.

(** The program finds the stem and the extension the words name. *)
Lemma split_filename_of_words (v dir b stem ext : string) :
  directory_and_base v dir b ->
  stem_and_extension b stem ext ->
  exists pth : string, filemanip.split_filename v = (pth, stem, ext).
Proof.
  intros Hv [Hb Hcases]. unfold filemanip.split_filename.
  rewrite (basename_of_directory_and_base v dir b Hv).
  destruct Hv as (_ & Hsep%no_sep_of_not_occurs & _).
  destruct Hcases as [[Hstem Hx] | [(Hno & (e & -> & He) & Hother)
                                   | (Hno & -> & Hdots)]].
  - subst b. rewrite (split_special_of_special stem ext Hstem Hx).
    by eexists.
  - rewrite (split_special_none b Hno). subst b.
    rewrite (splitext_at stem e Hsep He).
    rewrite (not_all_same_of_other "." stem Hother). by eexists.
  - rewrite (split_special_none b Hno).
    rewrite str_facts.app_nil_r in Hb. subst stem.
    destruct (rfind_cases "." b) as [[Hnone _] | (a & e & -> & He & _)].
    + rewrite (splitext_no_dot b Hnone). by eexists.
    + rewrite (splitext_at a e Hsep He).
      rewrite (all_same_of_only "." a); [by eexists|].
      intros c Hc. by eapply Hdots.
Qed.

End splitext_facts.

Module cwd_facts.
Import posixpath posixpath_facts normpath_facts normal_form join_facts.

(** [normpath] drops a last component ['.']. *)
Lemma normpath_rooted_dot (k : nat) (comps : list string) :
  k = 1%nat \/ k = 2%nat ->
  Forall (fun c => is_name c = true) comps ->
  normpath (join (rooted k comps) ".") = rooted k comps.
Proof.
  intros Hk Hcomps.
  destruct comps as [|b comps].
  { by destruct Hk as [-> | ->]. }
  destruct (join_ends_with_name (b :: comps)) as (s & a & Hs & Ha);
    [done..|].
  assert (He : str.endswith (rooted k (b :: comps)) "/" = false).
  { unfold rooted. rewrite Hs, <- str_facts.app_assoc.
    by apply endswith_app_name. }
  unfold join. change (str.startswith "." "/") with false. cbv iota.
  rewrite (rooted_not_empty k (b :: comps) Hk), He. cbn [orb].
  assert (Hpath : rooted k (b :: comps) +:+ "/" +:+ "."
                  = str.repeat sep k +:+ str.join "/" ((b :: comps) ++ ["."])).
  { unfold rooted. rewrite join_snoc by done.
    by rewrite !str_facts.app_assoc. }
  rewrite Hpath. unfold normpath.
  assert (Hhead : str.startswith (str.join "/" ((b :: comps) ++ ["."])) "/"
                  = false).
  { inversion_clear Hcomps as [|? ? Hb _].
    apply is_name_cons in Hb as (c & b' & -> & Hc & _). unfold sep in Hc.
    destruct comps; simpl; by rewrite Ascii.eqb_sym, Hc. }
  set (t := str.join "/" ((b :: comps) ++ ["."])) in *.
  assert (Hne : String.eqb (str.repeat sep k +:+ t) "" = false)
    by (by destruct Hk as [-> | ->]).
  assert (Hk' : (if str.startswith (str.repeat sep k +:+ t) "/" then
                   if str.startswith (str.repeat sep k +:+ t) "//" &&
                      negb (str.startswith (str.repeat sep k +:+ t) "///")
                   then 2%nat else 1%nat
                 else 0%nat) = k).
  { destruct Hk as [-> | ->]; simpl; simpl in Hhead; by rewrite ?Hhead. }
  rewrite Hne, Hk'. subst t.
  rewrite normpath_fold_slashes.
  rewrite split_join; [| |done].
  2:{ apply Forall_app. split; [|by repeat constructor].
      eapply Forall_impl; [done | apply is_name_no_sep]. }
  rewrite fold_left_app, (normpath_fold_names k (b :: comps) [] Hcomps).
  cbn [fold_left app]. unfold normpath_step at 1.
  change (String.eqb "." "" || String.eqb "." ".") with true. cbv iota.
  fold (rooted k (b :: comps)).
  by rewrite (rooted_not_empty k (b :: comps) Hk).
Qed.

(** In a working directory that is a rooted path of names,
    [abspath('.')] is that directory. *)
Lemma abspath_dot (k : nat) (comps : list string) :
  k = 1%nat \/ k = 2%nat ->
  Forall (fun c => is_name c = true) comps ->
  abspath (rooted k comps) "." = rooted k comps.
Proof. intros Hk Hcomps. by apply normpath_rooted_dot. Qed.

End cwd_facts.

Module coverage_facts.
Import posixpath extension_facts special_facts splitext_facts.

Lemma split_special_some (b stem ext : string) :
  filemanip.split_special b filemanip.special_extensions = Some (stem, ext) ->
  b = stem +:+ ext /\ stem <> "" /\ special_extension ext.
Proof.
  assert (Hround : forall special_ext exts,
    filemanip.split_special b (special_ext :: exts) = Some (stem, ext) ->
    (b = stem +:+ ext /\ stem <> "" /\
     ignoring_case ext (str.lower special_ext)) \/
    filemanip.split_special b exts = Some (stem, ext)).
  { intros special_ext exts. cbn [filemanip.split_special].
    destruct (String.length special_ext <? String.length b)%nat eqn:Elen;
      [|by right].
    destruct (String.eqb _ _) eqn:E; [|by right].
    apply Nat.ltb_lt in Elen. apply String.eqb_eq in E.
    simpl. intros [= <- <-]. left.
    split; [by rewrite take_drop|]. split.
    - intros Hnil. apply (f_equal String.length) in Hnil.
      assert (Hl := f_equal String.length
                 (take_drop (String.length b - String.length special_ext) b)).
      rewrite str_facts.length_app, Hnil, length_facts.length_drop in Hl.
      simpl in Hl. lia.
    - rewrite <- E. apply ignoring_case_of_lower. }
  unfold filemanip.special_extensions.
  intros [(? & ? & ?) | H]%Hround; [by repeat split; try left|].
  apply Hround in H as [(? & ? & ?) | H]; [by repeat split; try right|].
  done.
Qed.

(** Where a dot of [b] stands, only characters of the part before the
    last dot stand before it. *)
Lemma before_a_dot (a e s e' : string) (c : ascii) :
  a +:+ String "." e = s +:+ String "." e' ->
  ~ occurs "." e ->
  occurs c s -> occurs c a.
Proof.
  revert a. induction s as [|x s IH]; intros a Heq He Hc.
  - by apply occurs_nil in Hc.
  - destruct a as [|y a]; simpl in Heq; injection Heq as Hxy Heq.
    + destruct He. subst e. apply occurs_app_r, occurs_here.
    + subst y. apply occurs_cons in Hc as [->|Hc].
      * apply occurs_here.
      * apply occurs_later. by eapply IH.
Qed.

(** Every base name has a stem and a file extension. *)
Lemma stem_and_extension_total (b : string) :
  exists stem ext : string, stem_and_extension b stem ext.
Proof.
  destruct (filemanip.split_special b filemanip.special_extensions)
    as [[stem ext]|] eqn:E.
  { apply split_special_some in E as (Hb & Hstem & Hx).
    exists stem, ext. split; [done|]. by left. }
  assert (Hno : ~ has_special_extension b).
  { intros (s & x & -> & Hs & Hx).
    by rewrite (split_special_of_special s x Hs Hx) in E. }
  destruct (rfind_cases "." b) as [[Hnone _] | (a & e & Hb & He & _)].
  { exists b, "". split; [by rewrite str_facts.app_nil_r|].
    right; right. split; [done|]. split; [done|].
    intros s e c Hb. destruct Hnone. rewrite Hb.
    apply occurs_app_r, occurs_here. }
  destruct (str.all (fun c => Ascii.eqb c ".") a) eqn:Ea.
  - exists b, "". split; [by rewrite str_facts.app_nil_r|].
    right; right. split; [done|]. split; [done|].
    intros s e' c Hb' Hc. rewrite Hb in Hb'.
    assert (Hca := before_a_dot a e s e' c Hb' He Hc).
    clear -Ea Hca. induction a as [|y a IH]; [by apply occurs_nil in Hca|].
    simpl in Ea. apply andb_prop in Ea as [Hy Ha].
    apply occurs_cons in Hca as [<-|Hca]; [by apply Ascii.eqb_eq | auto].
  - exists a, (String "." e). split; [done|].
    right; left. split; [done|]. split; [by exists e|].
    clear -Ea. induction a as [|y a IH]; [done|].
    simpl in Ea. destruct (Ascii.eqb_spec y ".") as [->|Hy].
    + destruct (IH Ea) as (c & Hc & Hne). exists c.
      split; [by apply occurs_later | done].
    + exists y. split; [apply occurs_here | done].
Qed.

(** Every path has a directory part and a base name. *)
Lemma directory_and_base_total (v : string) :
  exists dir b : string, directory_and_base v dir b.
Proof.
  destruct (rfind_cases "/" v) as [[Hnone _] | (a & e & -> & He & _)].
  - exists "", v. split; [done|]. split; [done|]. by left.
  - exists (a +:+ "/"), e. split; [by rewrite str_facts.app_assoc|].
    split; [done|]. right. by exists a.
Qed.

End coverage_facts.

(** ** The file name diffeoScalarVolTask builds, in words *)

Lemma rooted_directory_and_base (k : nat) (comps : list string)
    (n : string) :
  k = 1%nat \/ k = 2%nat ->
  is_name n = true ->
  exists d : string, directory_and_base (rooted k (comps ++ [n])) d n.
Proof.
  intros Hk Hn.
  assert (Hno : ~ occurs "/" n).
  { by apply extension_facts.not_occurs_of_all_other,
      normpath_facts.is_name_no_sep. }
  unfold rooted. destruct comps as [|c comps].
  - exists (str.repeat posixpath.sep k). split; [done|]. split; [done|].
    right. destruct Hk as [-> | ->]; [by exists "" | by exists "/"].
  - exists (str.repeat posixpath.sep k +:+ str.join "/" (c :: comps) +:+ "/").
    rewrite normpath_facts.join_snoc by done.
    split; [by rewrite !str_facts.app_assoc|]. split; [done|].
    right. eexists. by rewrite str_facts.app_assoc.
Qed.

(** The name built for a file with the stem and the extension the words
    name, in an absolute working directory. *)
Lemma presuffixed_name (cwd v dir b stem ext : string) :
  posixpath.isabs cwd = true ->
  directory_and_base v dir b ->
  stem_and_extension b stem ext ->
  let n := stem +:+ "_diffeoxfmd" +:+ ext in
  let name := posixpath.join (posixpath.abspath cwd ".") n in
  filemanip.fname_presuffix cwd v "" "_diffeoxfmd"
    (Some (posixpath.abspath cwd ".")) = name /\
  posixpath.abspath cwd name = name /\
  posixpath.isabs name = true /\
  is_name n = true /\
  (forall (k : nat) (comps : list string),
     k = 1%nat \/ k = 2%nat ->
     Forall (fun c => is_name c = true) comps ->
     posixpath.abspath cwd "." = rooted k comps ->
     name = rooted k (comps ++ [n])).
Proof.
  intros Hcwd Hv Hb n name.
  destruct (splitext_facts.split_filename_of_words v dir b stem ext Hv Hb)
    as [pth Hsplit].
  destruct (fname_presuffix_in_cwd cwd v pth stem ext Hcwd Hsplit)
    as (Hname & Hfix & Habs).
  destruct (join_facts.split_filename_no_sep _ _ _ _ Hsplit) as [Hstem Hext].
  assert (Hn : is_name n = true).
  { apply (join_facts.presuffix_is_name stem "_diffeoxfmd" ext); try done.
    simpl. lia. }
  do 4 (split; [done|]).
  intros k comps Hk Hcomps HN. subst name. rewrite HN.
  by apply join_facts.join_rooted.
Qed.

(** C7: with in_volume set and out_path undefined (and the working
    directory absolute, as os.getcwd() gives it), diffeoScalarVolTask
    returns as out_file, and assigns to out_path, the absolute path that
    puts into the working directory the base name of in_volume with
    '_diffeoxfmd' between its stem and its file extension.  The base name
    is what stands behind the last slash of in_volume; the file extension
    is '.nii.gz' or '.tar.gz' in any case of letters behind a stem that is
    not empty, else the part from the last dot on when something other
    than dots stands before that dot, else nothing; every in_volume has
    such parts.  In a working directory that is a rooted path of names
    the result is that path with the new name as one more component.
    With out_path defined out_file is the absolute path of out_path. *)
Theorem diffeoScalarVolTask_out_file (cwd : string) (i : inputs) :
  posixpath.isabs cwd = true ->
  (forall v dir b stem ext : string,
     i !! "in_volume" = Some v ->
     i !! "out_path" = None ->
     directory_and_base v dir b ->
     stem_and_extension b stem ext ->
     let name :=
       posixpath.join (posixpath.abspath cwd ".")
         (stem +:+ "_diffeoxfmd" +:+ ext) in
     stem +:+ ext = posixpath.basename v /\
     posixpath.isabs name = true /\
     (forall (k : nat) (comps : list string),
        k = 1%nat \/ k = 2%nat ->
        Forall (fun c => is_name c = true) comps ->
        cwd = rooted k comps ->
        name = rooted k (comps ++ [stem +:+ "_diffeoxfmd" +:+ ext])) /\
     exists out : outputs,
       diffeoScalarVolTask._list_outputs cwd i
       = (inr out, <["out_path" := name]> i) /\
       out !! "out_file" = Some (PyStr name)) /\
  (forall v : string,
     exists dir b stem ext : string,
       directory_and_base v dir b /\ stem_and_extension b stem ext) /\
  (forall p : string,
     i !! "out_path" = Some p ->
     exists out : outputs,
       diffeoScalarVolTask._list_outputs cwd i = (inr out, i) /\
       out !! "out_file" = Some (PyStr (posixpath.abspath cwd p))).
Proof.
  intros Hcwd. split; [|split].
  - intros v dir b stem ext Hv Hp Hdb Hse name.
    destruct (presuffixed_name cwd v dir b stem ext Hcwd Hdb Hse)
      as (Hname & Hfix & Habs & _ & Hrooted).
    fold name in Hname, Hfix, Habs.
    split.
    { rewrite (extension_facts.basename_of_directory_and_base v dir b Hdb).
      symmetry. apply Hse. }
    split; [done|]. split.
    { intros k comps Hk Hcomps ->. apply (Hrooted k comps Hk Hcomps).
      by apply cwd_facts.abspath_dot. }
    eexists. rewrite (diffeoScalarVolTask_undefined_out_path cwd v i Hv Hp).
    cbv zeta. rewrite Hname, Hfix. split; [done|].
    by rewrite lookup_insert_eq.
  - intros v.
    destruct (coverage_facts.directory_and_base_total v) as (dir & b & Hdb).
    destruct (coverage_facts.stem_and_extension_total b) as (stem & ext & Hse).
    by exists dir, b, stem, ext.
  - intros p Hp. eexists.
    rewrite (diffeoScalarVolTask_defined_out_path cwd p i Hp).
    split; [done|]. by rewrite lookup_insert_eq.
Qed.

(** Short ways to the words for a given file name. *)
Lemma no_occurrence (c : ascii) (s : string) :
  str.all (fun a => negb (Ascii.eqb a c)) s = true -> ~ occurs c s.
Proof. apply extension_facts.not_occurs_of_all_other. Qed.

Lemma special_extension_of_lower (x : string) :
  str.lower x = ".nii.gz" \/ str.lower x = ".tar.gz" -> special_extension x.
Proof.
  intros [H|H]; [left | right]; rewrite <- H;
    apply special_facts.ignoring_case_of_lower.
Qed.

Lemma no_special_extension_when_short (b : string) :
  (String.length b <= 7)%nat -> ~ has_special_extension b.
Proof.
  intros Hlen (s & x & -> & Hs & [Hx|Hx]);
    apply special_facts.ignoring_case_length in Hx;
    rewrite str_facts.length_app, Hx in Hlen;
    destruct s; simpl in Hlen; (done || lia).
Qed.

Lemma extension_from_last_dot (stem e : string) :
  ~ has_special_extension (stem +:+ String "." e) ->
  ~ occurs "." e ->
  str.all (fun c => Ascii.eqb c ".") stem = false ->
  stem_and_extension (stem +:+ String "." e) stem (String "." e).
Proof.
  intros Hno He Hstem. split; [done|]. right; left.
  split; [done|]. split; [by exists e|].
  clear -Hstem. induction stem as [|y a IH]; [done|].
  simpl in Hstem. destruct (Ascii.eqb_spec y ".") as [->|Hy].
  - destruct (IH Hstem) as (c & Hc & Hne). exists c.
    split; [by apply extension_facts.occurs_later | done].
  - exists y. split; [apply extension_facts.occurs_here | done].
Qed.

Lemma no_extension (dots e : string) :
  ~ has_special_extension (dots +:+ e) ->
  str.all (fun c => Ascii.eqb c ".") dots = true ->
  ~ occurs "." e ->
  stem_and_extension (dots +:+ e) (dots +:+ e) "".
Proof.
  intros Hno Hdots He. split; [by rewrite str_facts.app_nil_r|].
  right; right. split; [done|]. split; [done|].
  intros s e' c Heq Hc.
  assert (Hin : occurs c dots).
  { clear Hno. revert s Heq Hc.
    induction dots as [|y a IH]; intros s Heq Hc.
    - destruct He. change ("" +:+ e) with e in Heq. rewrite Heq.
      apply extension_facts.occurs_app_r, extension_facts.occurs_here.
    - destruct s as [|x s]; [by apply extension_facts.occurs_nil in Hc|].
      simpl in Heq, Hdots. injection Heq as -> Heq.
      apply andb_prop in Hdots as [_ Hdots].
      apply extension_facts.occurs_cons in Hc as [->|Hc].
      + apply extension_facts.occurs_here.
      + apply extension_facts.occurs_later. by eapply IH. }
  clear -Hin Hdots. induction dots as [|y a IH].
  - by apply extension_facts.occurs_nil in Hin.
  - simpl in Hdots. apply andb_prop in Hdots as [Hy Ha].
    apply extension_facts.occurs_cons in Hin as [<-|Hin];
      [by apply Ascii.eqb_eq | auto].
Qed.

Lemma diffeoScalarVolTask_out_file_witness :
  (exists out : outputs,
     diffeoScalarVolTask._list_outputs "/work" {["in_volume" := "data/fa.nii.gz"]}
     = (inr out,
        <["out_path" := "/work/fa_diffeoxfmd.nii.gz"]>
          {["in_volume" := "data/fa.nii.gz"]}) /\
     out !! "out_file" = Some (PyStr "/work/fa_diffeoxfmd.nii.gz")) /\
  (exists out : outputs,
     diffeoScalarVolTask._list_outputs "/work" {["in_volume" := "data/fa.nii"]}
     = (inr out,
        <["out_path" := "/work/fa_diffeoxfmd.nii"]>
          {["in_volume" := "data/fa.nii"]}) /\
     out !! "out_file" = Some (PyStr "/work/fa_diffeoxfmd.nii")) /\
  (exists out : outputs,
     diffeoScalarVolTask._list_outputs "/work" {["in_volume" := "T1.NII.GZ"]}
     = (inr out,
        <["out_path" := "/work/T1_diffeoxfmd.NII.GZ"]>
          {["in_volume" := "T1.NII.GZ"]}) /\
     out !! "out_file" = Some (PyStr "/work/T1_diffeoxfmd.NII.GZ")) /\
  (exists out : outputs,
     diffeoScalarVolTask._list_outputs "/work" {["in_volume" := "/etc/.hidden"]}
     = (inr out,
        <["out_path" := "/work/.hidden_diffeoxfmd"]>
          {["in_volume" := "/etc/.hidden"]}) /\
     out !! "out_file" = Some (PyStr "/work/.hidden_diffeoxfmd")) /\
  "/work/fa_diffeoxfmd.nii" = rooted 1 ["work"; "fa_diffeoxfmd.nii"] /\
  (exists out : outputs,
     diffeoScalarVolTask._list_outputs "/work" {["out_path" := "../moved.nii"]}
     = (inr out, {["out_path" := "../moved.nii"]}) /\
     out !! "out_file" = Some (PyStr "/moved.nii")).
Proof.
  split; [|split; [|split; [|split; [|split]]]].
  - refine (proj2 (proj2 (proj2
      (proj1 (diffeoScalarVolTask_out_file "/work"
                {["in_volume" := "data/fa.nii.gz"]} eq_refl)
         "data/fa.nii.gz" "data/" "fa.nii.gz" "fa" ".nii.gz"
         eq_refl eq_refl _ _)))).
    + split; [reflexivity|]. split; [by apply no_occurrence|].
      right. by exists "data".
    + split; [reflexivity|]. left. split; [done|].
      apply special_extension_of_lower. by left.
  - refine (proj2 (proj2 (proj2
      (proj1 (diffeoScalarVolTask_out_file "/work"
                {["in_volume" := "data/fa.nii"]} eq_refl)
         "data/fa.nii" "data/" "fa.nii" "fa" ".nii"
         eq_refl eq_refl _ _)))).
    + split; [reflexivity|]. split; [by apply no_occurrence|].
      right. by exists "data".
    + apply (extension_from_last_dot "fa" "nii").
      * apply no_special_extension_when_short. simpl. lia.
      * by apply no_occurrence.
      * reflexivity.
  - refine (proj2 (proj2 (proj2
      (proj1 (diffeoScalarVolTask_out_file "/work"
                {["in_volume" := "T1.NII.GZ"]} eq_refl)
         "T1.NII.GZ" "" "T1.NII.GZ" "T1" ".NII.GZ"
         eq_refl eq_refl _ _)))).
    + split; [reflexivity|]. split; [by apply no_occurrence|]. by left.
    + split; [reflexivity|]. left. split; [done|].
      apply special_extension_of_lower. by left.
  - refine (proj2 (proj2 (proj2
      (proj1 (diffeoScalarVolTask_out_file "/work"
                {["in_volume" := "/etc/.hidden"]} eq_refl)
         "/etc/.hidden" "/etc/" ".hidden" ".hidden" ""
         eq_refl eq_refl _ _)))).
    + split; [reflexivity|]. split; [by apply no_occurrence|].
      right. by exists "/etc".
    + apply (no_extension "." "hidden").
      * apply no_special_extension_when_short. simpl. lia.
      * reflexivity.
      * by apply no_occurrence.
  - refine (proj1 (proj2 (proj2
      (proj1 (diffeoScalarVolTask_out_file "/work"
                {["in_volume" := "data/fa.nii"]} eq_refl)
         "data/fa.nii" "data/" "fa.nii" "fa" ".nii"
         eq_refl eq_refl _ _))) 1%nat ["work"] _ _ eq_refl).
    + split; [reflexivity|]. split; [by apply no_occurrence|].
      right. by exists "data".
    + apply (extension_from_last_dot "fa" "nii").
      * apply no_special_extension_when_short. simpl. lia.
      * by apply no_occurrence.
      * reflexivity.
    + by left.
    + by repeat constructor.
  - refine (proj2 (proj2 (diffeoScalarVolTask_out_file "/work"
                     {["out_path" := "../moved.nii"]} eq_refl))
              "../moved.nii" eq_refl).
Defined.

(** X12: with in_volume set, out_path undefined and an absolute working
    directory, the base name of the out_file of diffeoScalarVolTask is the
    stem of in_volume's base name, '_diffeoxfmd' and its file extension
    (stem and extension as the words above name them); it is the name the
    out_path trait declares by its template '%s_diffeoxfmd.nii.gz'
    exactly when that extension is '.nii.gz', in lower case. *)
Theorem diffeoScalarVolTask_out_file_and_template
    (cwd v dir b stem ext : string) (i : inputs) :
  posixpath.isabs cwd = true ->
  i !! "in_volume" = Some v ->
  i !! "out_path" = None ->
  directory_and_base v dir b ->
  stem_and_extension b stem ext ->
  let n := stem +:+ "_diffeoxfmd" +:+ ext in
  let f := posixpath.join (posixpath.abspath cwd ".") n in
  (name_template <$> trait_of diffeoScalarVolTask.input_spec "out_path")
  = Some (Some "%s_diffeoxfmd.nii.gz") /\
  (exists out : outputs,
     diffeoScalarVolTask._list_outputs cwd i
     = (inr out, <["out_path" := f]> i) /\
     out !! "out_file" = Some (PyStr f)) /\
  (exists d : string, directory_and_base f d n) /\
  posixpath.basename f = n /\
  (posixpath.basename f = format "%s_diffeoxfmd.nii.gz" stem
   <-> ext = ".nii.gz").
Proof.
  intros Hcwd Hv Hp Hdb Hse n f. split; [done|].
  destruct (presuffixed_name cwd v dir b stem ext Hcwd Hdb Hse)
    as (Hname & Hfix & _ & Hn & Hrooted).
  fold n in Hn, Hrooted. fold f in Hname, Hfix, Hrooted.
  destruct (abspath_is_rooted cwd "." Hcwd) as (k & comps & Hk & Hcomps & HN).
  specialize (Hrooted k comps Hk Hcomps HN).
  split.
  { eexists. rewrite (diffeoScalarVolTask_undefined_out_path cwd v i Hv Hp).
    cbv zeta. rewrite Hname, Hfix. split; [done|].
    by rewrite lookup_insert_eq. }
  rewrite Hrooted.
  split; [by apply rooted_directory_and_base|].
  rewrite (basename_facts.basename_rooted k comps _ Hk Hn).
  split; [done|].
  rewrite format_suffix_template. subst n.
  change "_diffeoxfmd.nii.gz" with ("_diffeoxfmd" +:+ ".nii.gz").
  split.
  - intros H. by do 2 apply String.app_inj in H.
  - by intros ->.
Qed.

Lemma diffeoScalarVolTask_out_file_and_template_witness :
  ((exists out : outputs,
      diffeoScalarVolTask._list_outputs "/work"
        {["in_volume" := "data/fa.nii.gz"]}
      = (inr out,
         <["out_path" := "/work/fa_diffeoxfmd.nii.gz"]>
           {["in_volume" := "data/fa.nii.gz"]}) /\
      out !! "out_file" = Some (PyStr "/work/fa_diffeoxfmd.nii.gz")) /\
   (exists d : string,
      directory_and_base "/work/fa_diffeoxfmd.nii.gz" d
        "fa_diffeoxfmd.nii.gz") /\
   posixpath.basename "/work/fa_diffeoxfmd.nii.gz" = "fa_diffeoxfmd.nii.gz" /\
   (posixpath.basename "/work/fa_diffeoxfmd.nii.gz" = "fa_diffeoxfmd.nii.gz"
    <-> ".nii.gz" = ".nii.gz")) /\
  ((exists out : outputs,
      diffeoScalarVolTask._list_outputs "/work"
        {["in_volume" := "data/fa.nii"]}
      = (inr out,
         <["out_path" := "/work/fa_diffeoxfmd.nii"]>
           {["in_volume" := "data/fa.nii"]}) /\
      out !! "out_file" = Some (PyStr "/work/fa_diffeoxfmd.nii")) /\
   (exists d : string,
      directory_and_base "/work/fa_diffeoxfmd.nii" d "fa_diffeoxfmd.nii") /\
   posixpath.basename "/work/fa_diffeoxfmd.nii" = "fa_diffeoxfmd.nii" /\
   (posixpath.basename "/work/fa_diffeoxfmd.nii" = "fa_diffeoxfmd.nii.gz"
    <-> ".nii" = ".nii.gz")) /\
  ((exists out : outputs,
      diffeoScalarVolTask._list_outputs "/work"
        {["in_volume" := "T1.NII.GZ"]}
      = (inr out,
         <["out_path" := "/work/T1_diffeoxfmd.NII.GZ"]>
           {["in_volume" := "T1.NII.GZ"]}) /\
      out !! "out_file" = Some (PyStr "/work/T1_diffeoxfmd.NII.GZ")) /\
   (exists d : string,
      directory_and_base "/work/T1_diffeoxfmd.NII.GZ" d
        "T1_diffeoxfmd.NII.GZ") /\
   posixpath.basename "/work/T1_diffeoxfmd.NII.GZ" = "T1_diffeoxfmd.NII.GZ" /\
   (posixpath.basename "/work/T1_diffeoxfmd.NII.GZ" = "T1_diffeoxfmd.nii.gz"
    <-> ".NII.GZ" = ".nii.gz")).
Proof.
  split; [|split].
  - refine (proj2 (diffeoScalarVolTask_out_file_and_template "/work"
              "data/fa.nii.gz" "data/" "fa.nii.gz" "fa" ".nii.gz"
              {["in_volume" := "data/fa.nii.gz"]}
              eq_refl eq_refl eq_refl _ _)).
    + split; [reflexivity|]. split; [by apply no_occurrence|].
      right. by exists "data".
    + split; [reflexivity|]. left. split; [done|].
      apply special_extension_of_lower. by left.
  - refine (proj2 (diffeoScalarVolTask_out_file_and_template "/work"
              "data/fa.nii" "data/" "fa.nii" "fa" ".nii"
              {["in_volume" := "data/fa.nii"]}
              eq_refl eq_refl eq_refl _ _)).
    + split; [reflexivity|]. split; [by apply no_occurrence|].
      right. by exists "data".
    + apply (extension_from_last_dot "fa" "nii").
      * apply no_special_extension_when_short. simpl. lia.
      * by apply no_occurrence.
      * reflexivity.
  - refine (proj2 (diffeoScalarVolTask_out_file_and_template "/work"
              "T1.NII.GZ" "" "T1.NII.GZ" "T1" ".NII.GZ"
              {["in_volume" := "T1.NII.GZ"]}
              eq_refl eq_refl eq_refl _ _)).
    + split; [reflexivity|]. split; [by apply no_occurrence|]. by left.
    + split; [reflexivity|]. left. split; [done|].
      apply special_extension_of_lower. by left.
Defined.
